(** * CAN log analyzer: ingestion, decoding and series preparation

    A shallow embedding of [can_log_plotter3.1.py]: the loader thread
    ([LogLoaderThread.run]), the preparation thread ([PlotterThread.run])
    and the part of [CANAnalyzerApp.plot_signals] that validates the time
    window and starts the preparation.

    Numbers.  Python floats are modelled by exact rationals [Q]; the order
    tests of the source ([>=], [<=], [>]) are the boolean order tests on
    [Q].  Rounding is therefore not modelled: a statement below that speaks
    of a computed quotient or mean speaks of its exact value.  What is
    modelled of the floating-point range is the one place where the loader
    depends on it, the [OverflowError] of [float] on an integer beyond that
    range.  Dictionaries keyed by strings are [gmap string _]; a pandas
    DataFrame with the columns (timestamp, value) is the list of its rows. *)

From Stdlib Require Import ZArith QArith Qround Lia Lqa List String Ascii.
From Stdlib Require Import DecimalString DecimalNat.
From Stdlib Require HexadecimalN.
From stdpp Require Import gmap strings list fin_maps.
Import ListNotations.

Local Open Scope string_scope.
Local Open Scope list_scope.

(** ** Python values handed back by the schema decoder

    [PyInt] is an int and [PyFloat] a float (or anything else that spells a
    number and that [float] converts); [PyNonNumeric] is a value for which
    [float] raises [TypeError] or [ValueError], carried as its printed
    form. *)

Inductive pyval : Type :=
| PyNone
| PyInt (z : Z)
| PyFloat (q : Q)
| PyNonNumeric (repr : string).

(** The exceptions of [float(value)]: those that the handler of the
    conversion names ([except (TypeError, ValueError)]), and
    [OverflowError], which that handler lets through. *)
Inductive float_error : Type :=
| TypeOrValueError
| OverflowError.

(** The least magnitude of an int that [float] refuses: the first integer
    that rounds, to nearest with ties to even, beyond the largest double
    [2^1024 - 2^971]. *)
Definition float_limit : Z := (2 ^ 1024 - 2 ^ 970)%Z.

(** [str(e)] for the [OverflowError] of [float]. *)
Definition overflow_text : string := "int too large to convert to float".

(** [float(value)] *)
Definition float (value : pyval) : float_error + Q :=
  match value with
  | PyInt z =>
      if (float_limit <=? Z.abs z)%Z then inl OverflowError else inr (inject_Z z)
  | PyFloat q => inr q
  | PyNone => inl TypeOrValueError
  | PyNonNumeric _ => inl TypeOrValueError
  end.

(** The exceptions that end a run: the [ValueError]s the program raises
    itself, the [IndexError] of an index past the end of a payload, and an
    exception raised inside the [python-can] reader, with its text. *)
Inductive exn : Type :=
| ValueError (msg : string)
| IndexError
| ReaderError (msg : string).

(** ** Frames read from the log ([can.Message]) *)

(** The value of the attribute [channel]: [None] (as in the frames of a CSV
    log), a number or a name. *)
Inductive Channel : Type :=
| ChannelNone
| ChannelNumber (z : Z)
| ChannelName (s : string).

(** [channel], [is_fd] and [bitrate_switch] are [None] for an object that
    lacks the attribute ([hasattr] is false); a [can.Message] has all
    three. *)
Record CanMsg : Type := {
  timestamp : Q;
  arbitration_id : N;
  data : list N;
  dlc : nat;
  channel : option Channel;
  is_fd : option bool;
  bitrate_switch : option bool
}.

(** The row built for the frame table ([msg_data]). *)
Record MsgData : Type := {
  md_timestamp : Q;
  md_arbitration_id : N;
  md_data : list N;
  md_dlc : nat;
  md_channel : Channel;
  md_is_fd : bool;
  md_bitrate_switch : bool
}.

Definition msg_data (msg : CanMsg) : MsgData :=
  {| md_timestamp := timestamp msg;
     md_arbitration_id := arbitration_id msg;
     md_data := data msg;
     md_dlc := dlc msg;
     md_channel := default (ChannelNumber 0) (channel msg);
     md_is_fd := default false (is_fd msg);
     md_bitrate_switch := default false (bitrate_switch msg) |}.

(** What the [python-can] reader does with the file.  Constructing it
    ([can.ASCReader(path)] and the like) can raise; iterating it yields
    [frames], after which the log ends or the reader raises instead of
    yielding a further frame (a record it cannot parse).  The errors are
    carried as the text of the exception. *)
Record Reader : Type := {
  open_error : option string;
  frames : list CanMsg;
  read_error : option string
}.

(** A reader that opens and yields the frames of [log] to its end. *)
Definition reading (log : list CanMsg) : Reader :=
  {| open_error := None; frames := log; read_error := None |}.

(** ** The signal dictionary (the interface of the [cantools] database
    that the loader uses) *)

Record DbSignal : Type := {
  sig_name : string;
  is_multiplexer : bool;
  multiplexer_ids : list Z
}.

(** [decode] is the library call
    [message.decode(data, decode_choices=False, allow_truncated=True,
    scaling=True, allow_excess=True)]: it raises ([inl], with the text of
    the exception) or returns the decoded dictionary in iteration order. *)
Record DbMessage : Type := {
  name : string;
  decode : list N -> string + list (string * pyval);
  is_multiplexed : bool;
  signals : list DbSignal
}.

(** [get_message_by_frame_id]: [None] stands for a raised [KeyError]. *)
Record Database : Type := {
  get_message_by_frame_id : N -> option DbMessage
}.

(** ** Formatting of keys *)

Fixpoint string_of_hex_upper (d : Hexadecimal.uint) : string :=
  match d with
  | Hexadecimal.Nil => ""
  | Hexadecimal.D0 r => String "0" (string_of_hex_upper r)
  | Hexadecimal.D1 r => String "1" (string_of_hex_upper r)
  | Hexadecimal.D2 r => String "2" (string_of_hex_upper r)
  | Hexadecimal.D3 r => String "3" (string_of_hex_upper r)
  | Hexadecimal.D4 r => String "4" (string_of_hex_upper r)
  | Hexadecimal.D5 r => String "5" (string_of_hex_upper r)
  | Hexadecimal.D6 r => String "6" (string_of_hex_upper r)
  | Hexadecimal.D7 r => String "7" (string_of_hex_upper r)
  | Hexadecimal.D8 r => String "8" (string_of_hex_upper r)
  | Hexadecimal.D9 r => String "9" (string_of_hex_upper r)
  | Hexadecimal.Da r => String "A" (string_of_hex_upper r)
  | Hexadecimal.Db r => String "B" (string_of_hex_upper r)
  | Hexadecimal.Dc r => String "C" (string_of_hex_upper r)
  | Hexadecimal.Dd r => String "D" (string_of_hex_upper r)
  | Hexadecimal.De r => String "E" (string_of_hex_upper r)
  | Hexadecimal.Df r => String "F" (string_of_hex_upper r)
  end.

(** [f"{n:X}"] for a non-negative integer. *)
Definition format_X (n : N) : string :=
  match N.to_hex_uint n with
  | Hexadecimal.Nil => "0"
  | d => string_of_hex_upper d
  end.

(** [f"{i}"] for a non-negative integer. *)
Definition format_d (i : nat) : string :=
  NilZero.string_of_uint (Nat.to_uint i).

(** [f"{message.name}.{signal_name}"] *)
Definition schema_key (message_name signal_name : string) : string :=
  message_name ++ "." ++ signal_name.

(** [f"ID_0x{msg.arbitration_id:X}.Byte{i}"] *)
Definition raw_key (id : N) (i : nat) : string :=
  "ID_0x" ++ format_X id ++ ".Byte" ++ format_d i.

(** ** The loader thread: [LogLoaderThread.run] *)

(** A series while it is being accumulated, and the DataFrame made of it:
    rows (timestamp, value) in append order. *)
Abbreviation Series := (list (Q * Q)).

(** What the loader prints.  The two prints that list the keys of the
    finished dictionary are left out (they only depend on its iteration
    order). *)
Inductive diag : Type :=
| PProcessing (id : N) (ts : Q) (len : nat) (payload : list N)
| PDecoded (message_name : string) (id : N) (decoded : list (string * pyval))
| PNonNumeric (key : string) (value : pyval)
| PStored (key : string) (value ts : Q)
| PMultiplexed (message_name : string)
| PMuxSignal (signal_name : string) (is_mux : bool) (ids : list Z)
| PDecodingFailed (message_name : string) (id : N) (err : string)
| PNoDbcMessage (id : N)
| PProcessed (processed decoded_signals : nat)
| PWarnNoSignals.

Record LoaderState : Type := {
  messages : list MsgData;
  signals_data : gmap string Series;
  processed_messages : nat;
  emitted : list Z;
  printed : list diag
}.

(** [not d] for a dictionary. *)
Definition dict_is_empty {V : Type} (d : gmap string V) : bool :=
  bool_decide (size d = 0%nat).

(** [if key not in signals_data: signals_data[key] = []] *)
Definition ensure_key (key : string) (sd : gmap string Series) : gmap string Series :=
  match sd !! key with
  | Some _ => sd
  | None => <[key := []]> sd
  end.

(** [signals_data[key].append(sample)] *)
Definition append_sample (key : string) (sample : Q * Q) (sd : gmap string Series)
  : gmap string Series :=
  alter (fun series => series ++ [sample]) key sd.

(** [float(value) if value is not None else 0.0] *)
Definition float_or_zero (value : pyval) : float_error + Q :=
  match value with
  | PyNone => inr 0%Q
  | _ => float value
  end.

(** The body of [for signal_name, value in decoded.items()].  [inl] is an
    exception of the conversion that its handler does not catch: it leaves
    the loop, with the key already created, and carries the text of the
    exception. *)
Definition store_signal (ts : Q) (message_name : string)
    (acc : gmap string Series * list diag) (item : string * pyval)
  : string * (gmap string Series * list diag) + gmap string Series * list diag :=
  let '(sd, out) := acc in
  let '(signal_name, value) := item in
  let key := schema_key message_name signal_name in
  let sd := ensure_key key sd in
  match float_or_zero value with
  | inl TypeOrValueError => inr (sd, out ++ [PNonNumeric key value])
  | inl OverflowError => inl (overflow_text, (sd, out))
  | inr v => inr (append_sample key (ts, v) sd, out ++ [PStored key v ts])
  end.

(** [for signal_name, value in decoded.items(): ...] *)
Fixpoint store_signals (ts : Q) (message_name : string)
    (decoded : list (string * pyval)) (acc : gmap string Series * list diag)
  : string * (gmap string Series * list diag) + gmap string Series * list diag :=
  match decoded with
  | [] => inr acc
  | item :: rest =>
      match store_signal ts message_name acc item with
      | inl raised => inl raised
      | inr acc => store_signals ts message_name rest acc
      end
  end.

(** The series map and the prints that the loop leaves, whether it ran to
    the end or was left by an exception. *)
Definition left_by {E A : Type} (r : E * A + A) : A :=
  match r with
  | inl (_, a) => a
  | inr a => a
  end.

(** The conversion of the value raises [OverflowError]. *)
Definition overflows (value : pyval) : bool :=
  match float_or_zero value with
  | inl OverflowError => true
  | _ => false
  end.

(** The entries of a decoded dictionary that the loop gets past: those
    before the first one whose conversion raises [OverflowError]. *)
Fixpoint entries_passed (decoded : list (string * pyval)) : list (string * pyval) :=
  match decoded with
  | [] => []
  | item :: rest =>
      if overflows (snd item) then [] else item :: entries_passed rest
  end.


(** The samples that a decoded dictionary contributes to the series of
    [key]: one per entry of that key that the loop gets past and whose
    value converts. *)
Definition samples_from (ts : Q) (message_name key : string)
    (decoded : list (string * pyval)) : Series :=
  flat_map (fun item =>
              if bool_decide (schema_key message_name (fst item) = key)
              then match float_or_zero (snd item) with
                   | inr v => [(ts, v)]
                   | inl _ => []
                   end
              else []) (entries_passed decoded).

(** The prints made for a multiplexed message after its signals are
    stored. *)
Definition mux_prints (message : DbMessage) : list diag :=
  if is_multiplexed message then
    PMultiplexed (name message) ::
    flat_map (fun s =>
      if orb (is_multiplexer s)
             (match multiplexer_ids s with [] => false | _ => true end)
      then [PMuxSignal (sig_name s) (is_multiplexer s) (multiplexer_ids s)]
      else []) (signals message)
  else [].

(** The branch [if self.db:] of the loop body.  The call of the decoder and
    the storing loop are under one handler ([except Exception]), which
    prints "Decoding failed" for whatever either of them raises. *)
Definition decode_with_db (db : Database) (msg : CanMsg)
    (sd : gmap string Series) (out : list diag)
  : gmap string Series * list diag :=
  match get_message_by_frame_id db (arbitration_id msg) with
  | None => (sd, out ++ [PNoDbcMessage (arbitration_id msg)])
  | Some message =>
      let out := out ++ [PProcessing (arbitration_id msg) (timestamp msg)
                                     (dlc msg) (data msg)] in
      match decode message (data msg) with
      | inl err =>
          (sd, out ++ [PDecodingFailed (name message) (arbitration_id msg) err])
      | inr decoded =>
          let out := out ++ [PDecoded (name message) (arbitration_id msg) decoded] in
          match store_signals (timestamp msg) (name message) decoded (sd, out) with
          | inr (sd, out) => (sd, out ++ mux_prints message)
          | inl (err, (sd, out)) =>
              (sd, out ++ [PDecodingFailed (name message) (arbitration_id msg) err])
          end
      end
  end.

(** The branch [else:] of the loop body, [for i in range(msg.dlc)]:
    [msg.data[i]] raises [IndexError] past the end of the payload. *)
Fixpoint store_bytes (msg : CanMsg) (indices : list nat) (sd : gmap string Series)
  : exn + gmap string Series :=
  match indices with
  | [] => inr sd
  | i :: rest =>
      let key := raw_key (arbitration_id msg) i in
      let sd := ensure_key key sd in
      match data msg !! i with
      | None => inl IndexError
      | Some b =>
          store_bytes msg rest
            (append_sample key (timestamp msg, inject_Z (Z.of_N b)) sd)
      end
  end.

(** [int(x)] on a float: truncation towards zero. *)
Definition py_int (x : Q) : Z :=
  if Qle_bool 0 x then Qfloor x else Qceiling x.

(** [min(100, int((processed_messages / total_messages) * 100))], with
    the quotient and the product taken exactly. *)
Definition progress_value (processed total : nat) : Z :=
  Z.min 100
    (py_int ((inject_Z (Z.of_nat processed) / inject_Z (Z.of_nat total)) * 100)%Q).

(** One turn of [for msg in reader]. *)
Definition loop_body (db : option Database) (total_messages : nat)
    (st : LoaderState) (msg : CanMsg) : exn + LoaderState :=
  let decoded :=
    match db with
    | Some db =>
        inr (decode_with_db db msg (signals_data st) (printed st))
    | None =>
        match store_bytes msg (seq 0 (dlc msg)) (signals_data st) with
        | inl e => inl e
        | inr sd => inr (sd, printed st)
        end
    end in
  match decoded with
  | inl e => inl e
  | inr (sd, out) =>
      let processed := S (processed_messages st) in
      inr {| messages := messages st ++ [msg_data msg];
             signals_data := sd;
             processed_messages := processed;
             emitted :=
               if (0 <? total_messages)%nat
               then emitted st ++ [progress_value processed total_messages]
               else emitted st;
             printed := out |}
  end.

Fixpoint loop (db : option Database) (total_messages : nat)
    (st : LoaderState) (reader : list CanMsg) : exn * LoaderState + LoaderState :=
  match reader with
  | [] => inr st
  | msg :: rest =>
      match loop_body db total_messages st msg with
      | inl e => inl (e, st)
      | inr st => loop db total_messages st rest
      end
  end.

(** The terminal signal of the loader. *)
Inductive LoadOutcome : Type :=
| Finished (df : list MsgData) (signals_data : gmap string Series)
| Error (e : exn).

Record LoadRun : Type := {
  progress : list Z;
  output : list diag;
  outcome : LoadOutcome
}.

(** [pd.DataFrame(data, columns=['timestamp', 'value'])] *)
Definition DataFrame (rows : Series) : Series := rows.

(** [LogLoaderThread.run].  [ext] is the lower-cased extension of the file
    path, [line_count] the number of lines counted in the file ([None] when
    the file cannot be opened for counting) and [reader] what the
    [python-can] reader does.  Every exception that is not handled inside
    the loop ends the run with the signal [error]. *)
Definition LogLoaderThread_run (ext : string) (db : option Database) (line_count : option nat)
    (reader : Reader) : LoadRun :=
  let failed e st :=
    {| progress := emitted st; output := printed st; outcome := Error e |} in
  if negb (bool_decide (ext = ".asc") || bool_decide (ext = ".blf")
           || bool_decide (ext = ".csv"))
  then {| progress := []; output := [];
          outcome := Error (ValueError "Unsupported file format") |}
  else
    let st0 := {| messages := []; signals_data := ∅; processed_messages := 0;
                  emitted := []; printed := [] |} in
    match open_error reader with
    | Some err => failed (ReaderError err) st0
    | None =>
        let total_messages := default 0%nat line_count in
        match loop db total_messages st0 (frames reader) with
        | inl (e, st) => failed e st
        | inr st =>
            match read_error reader with
            | Some err => failed (ReaderError err) st
            | None =>
                let df := messages st in
                let sd := DataFrame <$> signals_data st in
                let out := printed st ++ [PProcessed (processed_messages st) (size sd)] in
                let out := if dict_is_empty sd then out ++ [PWarnNoSignals] else out in
                {| progress := emitted st; output := out; outcome := Finished df sd |}
            end
        end
    end.

(** Every stored series has a row, or a print records why a value of its
    key gave none: "Non-numeric value" for the key, or "Decoding failed"
    for its message with the text of the [OverflowError]. *)
Definition series_justified (sd : gmap string Series) (out : list diag) : Prop :=
  forall k rows, sd !! k = Some rows ->
                 rows <> [] \/
                 (exists v, In (PNonNumeric k v) out) \/
                 (exists message_name signal_name id,
                     k = schema_key message_name signal_name /\
                     In (PDecodingFailed message_name id overflow_text) out).

(** Two loader states that differ at most in the progress emitted. *)
Definition same_store (a b : LoaderState) : Prop :=
  messages a = messages b /\ signals_data a = signals_data b /\
  processed_messages a = processed_messages b /\ printed a = printed b.

(** ** The preparation thread: [PlotterThread.run] *)

(** [x < y] on floats. *)
Definition Qltb (x y : Q) : bool := negb (Qle_bool y x).

(** [min] and [max] ([np.min], [np.max]) of the non-empty sequence
    [x :: l]. *)
Definition min_from (x : Q) (l : list Q) : Q :=
  fold_left (fun best y => if Qltb y best then y else best) l x.

Definition max_from (x : Q) (l : list Q) : Q :=
  fold_left (fun best y => if Qltb best y then y else best) l x.

Definition Qsum (l : list Q) : Q := fold_left Qplus l 0%Q.

(** [np.mean] of a non-empty sequence, taken exactly.  The sum of floats
    rounds, so the computed mean can differ from this value in its last
    digits, and can then lie just outside the range of the values: no
    bound on the mean is stated below. *)
Definition np_mean (l : list Q) : Q :=
  (Qsum l / inject_Z (Z.of_nat (length l)))%Q.

(** [s.replace(old, new)] for a non-empty [old]: the occurrences are
    replaced from left to right, without overlap.  [skip] counts the
    characters of a matched occurrence still to be dropped. *)
Fixpoint replace_from (old new : string) (skip : nat) (s : string) : string :=
  match s with
  | EmptyString => EmptyString
  | String c rest =>
      match skip with
      | S k => replace_from old new k rest
      | O =>
          if String.prefix old s
          then new ++ replace_from old new (String.length old - 1) rest
          else String c (replace_from old new 0 rest)
      end
  end.

Definition str_replace (old new s : string) : string := replace_from old new 0 s.

(** [signal.replace('[PDU] ', '')] *)
Definition clean_signal (signal : string) : string := str_replace "[PDU] " "" signal.

Record Style : Type := {
  color : string;
  linestyle : string;
  marker : string
}.

Record Stats : Type := {
  stat_min : option Q;
  stat_max : option Q;
  stat_mean : option Q
}.

Record PlotEntry : Type := {
  timestamps : list Q;
  values : list Q;
  stats : Stats;
  style : Style
}.

(** The fields of the thread object that [run] reads ([channel] is always
    [None] and is not read). *)
Record PlotterThread : Type := {
  pt_signals_data : gmap string Series;
  selected_signals : list string;
  time_range : option (Q * Q);
  normalize : bool;
  plot_styles : gmap string Style
}.

(** The row test [(data['timestamp'] >= start_time) &
    (data['timestamp'] <= end_time)]. *)
Definition in_window (start_time end_time : Q) (row : Q * Q) : bool :=
  Qle_bool start_time (fst row) && Qle_bool (fst row) end_time.

Definition filter_window (start_time end_time : Q) (rows : Series) : Series :=
  List.filter (in_window start_time end_time) rows.

(** Lines 250-255: the values, rescaled when [normalize] is set and
    [max_val > min_val]. *)
Definition normalized (normalize : bool) (values : list Q) : list Q :=
  match values with
  | v :: vs =>
      if normalize then
        let min_val := min_from v vs in
        let max_val := max_from v vs in
        if Qltb min_val max_val
        then List.map (fun x => ((x - min_val) / (max_val - min_val))%Q) values
        else values
      else values
  | [] => values
  end.

Definition stats_of (values : list Q) : Stats :=
  match values with
  | v :: vs =>
      {| stat_min := Some (min_from v vs);
         stat_max := Some (max_from v vs);
         stat_mean := Some (np_mean values) |}
  | [] => {| stat_min := None; stat_max := None; stat_mean := None |}
  end.

Definition default_style : Style :=
  {| color := "blue"; linestyle := "-"; marker := "o" |}.

Definition plot_entry (self : PlotterThread) (signal : string) (filtered_data : Series)
  : PlotEntry :=
  let values := normalized (normalize self) (List.map snd filtered_data) in
  {| timestamps := List.map fst filtered_data;
     values := values;
     stats := stats_of values;
     style := default default_style (plot_styles self !! signal) |}.

(** The body of the second [for signal in self.selected_signals]. *)
Definition plot_step (self : PlotterThread) (start_time end_time : Q)
    (plot_data : gmap string PlotEntry) (signal : string) : gmap string PlotEntry :=
  let clean := clean_signal signal in
  match pt_signals_data self !! clean with
  | None => plot_data
  | Some rows =>
      match filter_window start_time end_time rows with
      | [] => plot_data
      | filtered_data => <[clean := plot_entry self signal filtered_data]> plot_data
      end
  end.

(** The timestamps gathered by the first loop, [all_timestamps]. *)
Definition all_timestamps (sd : gmap string Series) (selected : list string) : list Q :=
  flat_map (fun signal =>
              match sd !! clean_signal signal with
              | Some rows => List.map fst rows
              | None => []
              end) selected.

(** The window the run filters with: the given one, or the full range of
    the selected series. *)
Definition effective_window (self : PlotterThread) : exn + Q * Q :=
  match time_range self with
  | None =>
      match all_timestamps (pt_signals_data self) (selected_signals self) with
      | [] => inl (ValueError "No data available for selected signals")
      | t :: ts => inr (min_from t ts, max_from t ts)
      end
  | Some range => inr range
  end.

Inductive PlotOutcome : Type :=
| PlotFinished (plot_data : gmap string PlotEntry)
| PlotError (e : exn).

(** [PlotterThread.run] *)
Definition PlotterThread_run (self : PlotterThread) : PlotOutcome :=
  match effective_window self with
  | inl e => PlotError e
  | inr (start_time, end_time) =>
      let plot_data :=
        fold_left (plot_step self start_time end_time) (selected_signals self) ∅ in
      if dict_is_empty plot_data
      then PlotError (ValueError "No valid data to plot for selected signals")
      else PlotFinished plot_data
  end.

(** What the loop stores for a signal that has rows in the window. *)
Definition prepared (self : PlotterThread) (start_time end_time : Q)
    (signal : string) (e : PlotEntry) : Prop :=
  exists rows,
    pt_signals_data self !! clean_signal signal = Some rows /\
    filter_window start_time end_time rows <> [] /\
    e = plot_entry self signal (filter_window start_time end_time rows).

(** A selected signal resolves to no data: it has no stored series, or its
    filtered result is empty (with the full range, which keeps every row,
    that is a stored series without rows). *)
Definition resolves_no_data (self : PlotterThread) (signal : string) : Prop :=
  match pt_signals_data self !! clean_signal signal with
  | None => True
  | Some rows =>
      match time_range self with
      | Some (s, t) => filter_window s t rows = []
      | None => rows = []
      end
  end.

(** ** The plotting path: [CANAnalyzerApp.plot_signals] *)

(** The part of the application object that the plotting path reads or
    writes: the stored frame table, the stored series map and the titles of
    the plot tabs. *)
Record App : Type := {
  log_data : option (list MsgData);
  app_signals_data : gmap string Series;
  plot_tabs : list string
}.

(** The state of the widgets when the slot runs. *)
Record Widgets : Type := {
  signal_list_selected : list string;
  current_tab_is_raw_data : bool;
  time_range_combo : string;
  start_time_spin : Q;
  end_time_spin : Q;
  normalize_check : bool;
  linestyle_combo : string;
  marker_combo : string;
  color_cycle : list string
}.

(** The warning boxes of [plot_signals]. *)
Inductive warning : Type :=
| WarnLoadLogFirst
| WarnSelectSignal
| WarnNoDataAvailable
| WarnCannotUpdateRawData
| WarnStartNotBeforeEnd
| WarnNoDataPoints.

Inductive plot_diag : Type :=
| PMissingSignals (missing : list string)
| PSignalHasData (signal : string) (rows : nat)
| PSignalNoData (signal : string)
| PFallbackToFullRange
| PFallbackRange (start_time end_time : Q).

Inductive PlotAction : Type :=
| Warned (w : warning)
| Started (thread : PlotterThread).

Record PlotCall : Type := {
  app_after : App;
  plot_output : list plot_diag;
  action : PlotAction
}.

(** [" | ".join(l)] *)
Fixpoint join_bar (l : list string) : string :=
  match l with
  | [] => ""
  | [x] => x
  | x :: rest => x ++ " | " ++ join_bar rest
  end.

Definition tab_title (selected : list string) : string :=
  if (3 <? length selected)%nat
  then join_bar (firstn 3 selected ++ ["..."])
  else join_bar selected.

(** The dictionary comprehension over [enumerate(selected_signals)]; the
    colour cycle of the plotting library is not empty. *)
Definition build_styles (w : Widgets) : gmap string Style :=
  fold_left (fun styles '(i, s) =>
               <[s := {| color := default "" (color_cycle w !!
                                     (i mod length (color_cycle w))%nat);
                         linestyle := linestyle_combo w;
                         marker := marker_combo w |}]> styles)
            (imap (fun i s => (i, s)) (signal_list_selected w)) ∅.

(** The first loop of [plot_signals]: the selected names, cleaned, split
    into those with a stored series and the others. *)
Definition valid_signals_of (sd : gmap string Series) (selected : list string)
  : list string :=
  List.filter (fun c => bool_decide (is_Some (sd !! c)))
              (List.map clean_signal selected).

Definition missing_signals_of (sd : gmap string Series) (selected : list string)
  : list string :=
  List.filter (fun c => negb (bool_decide (is_Some (sd !! c))))
              (List.map clean_signal selected).

(** [not filtered_data.empty] *)
Definition has_rows (rows : Series) : bool :=
  match rows with
  | [] => false
  | _ => true
  end.

(** The print of the loop over [valid_signals] for one signal. *)
Definition scan_print (sd : gmap string Series) (start_time end_time : Q)
    (signal : string) : plot_diag :=
  let filtered_data := filter_window start_time end_time (default [] (sd !! signal)) in
  if has_rows filtered_data
  then PSignalHasData signal (length filtered_data)
  else PSignalNoData signal.

(** The loop over [valid_signals] that looks for data in the custom
    window. *)
Definition window_scan (sd : gmap string Series) (start_time end_time : Q)
    (acc : bool * list plot_diag) (signal : string) : bool * list plot_diag :=
  let '(has_data, out) := acc in
  let filtered_data := filter_window start_time end_time (default [] (sd !! signal)) in
  ((if has_rows filtered_data then true else has_data),
   out ++ [scan_print sd start_time end_time signal]).

(** The print "falling back to full log range". *)
Definition is_fallback (d : plot_diag) : bool :=
  match d with
  | PFallbackToFullRange => true
  | _ => false
  end.

(** [plot_signals(update)] up to the start of the preparation thread. *)
Definition plot_signals (app : App) (w : Widgets) (update : bool) : PlotCall :=
  let stop app out wn := {| app_after := app; plot_output := out; action := Warned wn |} in
  match log_data app with
  | None => stop app [] WarnLoadLogFirst
  | Some _ =>
  let selected_signals := signal_list_selected w in
  match selected_signals with
  | [] => stop app [] WarnSelectSignal
  | _ =>
  let valid_signals := valid_signals_of (app_signals_data app) selected_signals in
  let missing_signals := missing_signals_of (app_signals_data app) selected_signals in
  let out := match missing_signals with [] => [] | _ => [PMissingSignals missing_signals] end in
  match valid_signals with
  | [] => stop app out WarnNoDataAvailable
  | _ =>
  let plot_styles := build_styles w in
  if update && current_tab_is_raw_data w then stop app out WarnCannotUpdateRawData else
  let app :=
    if update then app
    else {| log_data := log_data app;
            app_signals_data := app_signals_data app;
            plot_tabs := plot_tabs app ++ [tab_title selected_signals] |} in
  let start thread_range out :=
    {| app_after := app; plot_output := out;
       action := Started {| pt_signals_data := app_signals_data app;
                            selected_signals := valid_signals;
                            time_range := thread_range;
                            normalize := normalize_check w;
                            plot_styles := plot_styles |} |} in
  if bool_decide (time_range_combo w = "Custom") then
    let start_time := start_time_spin w in
    let end_time := end_time_spin w in
    if Qle_bool end_time start_time then stop app out WarnStartNotBeforeEnd else
    let '(has_data, out) :=
      fold_left (window_scan (app_signals_data app) start_time end_time)
                valid_signals (false, out) in
    if has_data then start (Some (start_time, end_time)) out
    else
      let out := out ++ [PFallbackToFullRange] in
      match flat_map (fun signal => List.map fst (default [] (app_signals_data app !! signal)))
                     valid_signals with
      | [] => stop app out WarnNoDataPoints
      | t :: ts =>
          let start_time := min_from t ts in
          let end_time := max_from t ts in
          start (Some (start_time, end_time)) (out ++ [PFallbackRange start_time end_time])
      end
  else start None out
  end end end.

(** The whole path: the slot, then the run of the thread it started (if
    any). *)
Definition prepare (app : App) (w : Widgets) (update : bool)
  : PlotCall * option PlotOutcome :=
  let call := plot_signals app w update in
  (call, match action call with
         | Started thread => Some (PlotterThread_run thread)
         | Warned _ => None
         end).

(** ** What a load stores, frame by frame *)

(** The samples that one frame contributes to the series of [key] when a
    schema is loaded: none for an identifier the schema does not know or a
    call of the decoder that raises, and otherwise those of the entries of
    the decoded dictionary that the storing loop gets past. *)
Definition frame_samples (db : Database) (key : string) (msg : CanMsg) : Series :=
  match get_message_by_frame_id db (arbitration_id msg) with
  | None => []
  | Some message =>
      match decode message (data msg) with
      | inl _ => []
      | inr decoded => samples_from (timestamp msg) (name message) key decoded
      end
  end.

(** The extensions that [LogLoaderThread.run] has a reader for. *)
Definition supported (ext : string) : Prop :=
  ext = ".asc" \/ ext = ".blf" \/ ext = ".csv".

(** The frame declares no more bytes than its payload holds. *)
Definition payload_covers_dlc (msg : CanMsg) : Prop :=
  (dlc msg <= length (data msg))%nat.

(** ** The message list and the signal list

    [populate_message_list] writes one item per message and
    [update_signal_list] reads the identifier back from the selected items
    and lists the signals to choose from. *)

(** [f"0x{message.frame_id:X} - {message.name}"], the item of a message of
    the schema. *)
Definition message_item (frame_id : N) (message_name : string) : string :=
  "0x" ++ format_X frame_id ++ " - " ++ message_name.

(** [f"0x{arb_id:X}"], the item of an identifier of the log when no schema
    is loaded. *)
Definition raw_message_item (arb_id : N) : string := "0x" ++ format_X arb_id.

(** [text.split(' ')[0]]: the text before the first blank. *)
Fixpoint first_word (text : string) : string :=
  match text with
  | EmptyString => EmptyString
  | String c rest => if Ascii.eqb c " " then EmptyString else String c (first_word rest)
  end.

(** [text[2:]] *)
Definition from_third (text : string) : string :=
  match text with
  | String _ (String _ rest) => rest
  | _ => EmptyString
  end.

(** The value of one hexadecimal digit, by its character code: ['0'..'9'],
    ['A'..'F'] and ['a'..'f']. *)
Definition hex_digit_value (c : ascii) : option N :=
  let code := N_of_ascii c in
  (if (48 <=? code) && (code <=? 57) then Some (code - 48)
   else if (65 <=? code) && (code <=? 70) then Some (code - 55)
   else if (97 <=? code) && (code <=? 102) then Some (code - 87)
   else None)%N.

Fixpoint int16_from (acc : N) (digits : string) : option N :=
  match digits with
  | EmptyString => Some acc
  | String c rest =>
      match hex_digit_value c with
      | Some d => int16_from (acc * 16 + d) rest
      | None => None
      end
  end.

(** [int(digits, 16)] on a text made of hexadecimal digits, which is what
    the items hold after ["0x"]; [None] stands for [ValueError] on the empty
    text and on a text with another character (the sign, blanks,
    underscores and prefix that [int] also reads do not occur in an item,
    and this function does not read them). *)
Definition int16 (digits : string) : option N :=
  match digits with
  | EmptyString => None
  | _ => int16_from 0 digits
  end.

(** [int(item.text().split(' ')[0][2:], 16)], the identifier read from an
    item when a schema is loaded. *)
Definition item_frame_id (item : string) : option N :=
  int16 (from_third (first_word item)).

(** [int(item.text()[2:], 16)], the identifier read from an item when no
    schema is loaded. *)
Definition raw_item_arb_id (item : string) : option N :=
  int16 (from_third item).

(** The item of a signal of a message: ["[PDU] "] before the key when the
    signal has multiplexer ids. *)
Definition signal_item (message : DbMessage) (signal : DbSignal) : string :=
  ((match multiplexer_ids signal with [] => "" | _ => "[PDU] " end)
   ++ schema_key (name message) (sig_name signal))%string.

(** [self.log_data[self.log_data['arbitration_id'] == arb_id]['dlc'].max()]
    over the rows of the frame table, [None] when no row has the
    identifier. *)
Definition max_dlc (log_data : list MsgData) (arb_id : N) : option nat :=
  match List.filter (fun row => (md_arbitration_id row =? arb_id)%N) log_data with
  | [] => None
  | row :: rows => Some (fold_left Nat.max (List.map md_dlc rows) (md_dlc row))
  end.

(** The signal items listed for an identifier when no schema is loaded:
    one per byte index below the largest declared length. *)
Definition raw_signal_items (log_data : list MsgData) (arb_id : N) : list string :=
  match max_dlc log_data arb_id with
  | Some n => List.map (raw_key arb_id) (seq 0 n)
  | None => []
  end.

(** The text holds the character. *)
Fixpoint has_char (c : ascii) (text : string) : bool :=
  match text with
  | EmptyString => false
  | String c' rest => Ascii.eqb c' c || has_char c rest
  end.

(** ** The status line: [update_status] *)

Definition newline : string := String (ascii_of_nat 10) EmptyString.

(** ["\n".join(lines)] *)
Fixpoint join_lines (lines : list string) : string :=
  match lines with
  | [] => ""
  | [x] => x
  | x :: rest => x ++ newline ++ join_lines rest
  end.

Record StatusLine : Type := {
  status_label : string;
  status_history : list string;
  status_tooltip : string
}.

(** [update_status(message)], with [now] the clock reading
    [datetime.now().strftime('%H:%M:%S')]. *)
Definition update_status (now message : string) (history : list string) : StatusLine :=
  let full_message := ("[" ++ now ++ "] " ++ message)%string in
  let history := history ++ [full_message] in
  let history := if (50 <? length history)%nat then List.skipn 1 history else history in
  {| status_label := full_message;
     status_history := history;
     status_tooltip := join_lines (List.skipn (length history - 5) history) |}.

(** The history after a sequence of calls, from the empty history the
    window starts with. *)
Definition history_after (calls : list (string * string)) : list string :=
  fold_left (fun history call =>
               status_history (update_status (fst call) (snd call) history))
            calls [].

(** ** Sample inputs *)

Definition frame (ts : Q) (id : N) (payload : list N) (len : nat) : CanMsg :=
  {| timestamp := ts; arbitration_id := id; data := payload; dlc := len;
     channel := Some ChannelNone; is_fd := Some false;
     bitrate_switch := Some false |}.

(** A message whose decoder returns a number for [RPM] and a value that is
    not a number for [Mode]. *)
Definition engine_message : DbMessage :=
  {| name := "Engine";
     decode := fun payload =>
       inr [("RPM", PyInt (Z.of_N (default 0%N (payload !! 0%nat))));
            ("Mode", PyNonNumeric "sport")];
     is_multiplexed := false;
     signals := [ {| sig_name := "RPM"; is_multiplexer := false; multiplexer_ids := [] |};
                  {| sig_name := "Mode"; is_multiplexer := false; multiplexer_ids := [] |} ] |}.

(** A message whose decoder returns [None] for [Gear]. *)
Definition status_message : DbMessage :=
  {| name := "Status";
     decode := fun _ => inr [("Gear", PyNone)];
     is_multiplexed := false;
     signals := [ {| sig_name := "Gear"; is_multiplexer := false; multiplexer_ids := [] |} ] |}.

(** A multiplexed message whose decoder raises on a selector value it
    does not know (the first payload byte), and returns the plain signal
    [Load] and the selector otherwise. *)
Definition climate_message : DbMessage :=
  {| name := "Climate";
     decode := fun payload =>
       match payload with
       | 0%N :: load :: _ =>
           inr [("Selector", PyInt 0); ("Load", PyInt (Z.of_N load))]
       | _ => inl "expected multiplexer id 0"
       end;
     is_multiplexed := true;
     signals := [ {| sig_name := "Selector"; is_multiplexer := true; multiplexer_ids := [] |};
                  {| sig_name := "Load"; is_multiplexer := false; multiplexer_ids := [] |};
                  {| sig_name := "FanSpeed"; is_multiplexer := false;
                     multiplexer_ids := [0%Z] |} ] |}.

(** A message whose decoder returns, for [Odometer], an int beyond the
    range of a float, between two signals that convert. *)
Definition trip_message : DbMessage :=
  {| name := "Trip";
     decode := fun payload =>
       inr [("Speed", PyInt (Z.of_N (default 0%N (payload !! 0%nat))));
            ("Odometer", PyInt (2 ^ 1024));
            ("Fuel", PyInt 3)];
     is_multiplexed := false;
     signals := [ {| sig_name := "Speed"; is_multiplexer := false; multiplexer_ids := [] |};
                  {| sig_name := "Odometer"; is_multiplexer := false;
                     multiplexer_ids := [] |};
                  {| sig_name := "Fuel"; is_multiplexer := false; multiplexer_ids := [] |} ] |}.

Definition sample_db : Database :=
  {| get_message_by_frame_id := fun id =>
       if (id =? 256)%N then Some engine_message
       else if (id =? 512)%N then Some status_message
       else if (id =? 768)%N then Some climate_message
       else if (id =? 1280)%N then Some trip_message
       else None |}.

(** A remote frame: eight bytes declared, no payload. *)
Definition remote_frame : CanMsg := frame 0 291 [] 8.

(** A stored series map, a preparation thread over it and an application
    state that holds it. *)
Definition sample_store : gmap string Series :=
  <["Engine.RPM" := [(0, 5); (1, 7); (2, 9)]%Q]>
    (<["Speed.KPH" := [(30, 1)]%Q]>
       (<["Cabin.Temp" := [(0, 5); (1, 5); (2, 5)]%Q]> ∅)).

Definition sample_thread : PlotterThread :=
  {| pt_signals_data := sample_store;
     selected_signals := ["[PDU] Engine.RPM"; "Speed.KPH"; "Cabin.Temp"; "Door.Open"];
     time_range := Some (1, 2)%Q;
     normalize := true;
     plot_styles := ∅ |}.

Definition sample_plot_data : gmap string PlotEntry :=
  fold_left (plot_step sample_thread 1 2) (selected_signals sample_thread) ∅.

Definition sample_entry : PlotEntry :=
  plot_entry sample_thread "[PDU] Engine.RPM" [(1, 7); (2, 9)]%Q.

Definition sample_app : App :=
  {| log_data := Some (List.map msg_data
                        [frame 0 256 [5%N] 1; frame 1 256 [7%N] 1;
                         frame 2 256 [9%N] 1; frame 30 1024 [1%N] 1]);
     app_signals_data := sample_store;
     plot_tabs := [] |}.

Definition sample_widgets (start_time end_time : Q) : Widgets :=
  {| signal_list_selected := ["[PDU] Engine.RPM"; "Speed.KPH"];
     current_tab_is_raw_data := false;
     time_range_combo := "Custom";
     start_time_spin := start_time;
     end_time_spin := end_time;
     normalize_check := false;
     linestyle_combo := "-";
     marker_combo := "o";
     color_cycle := ["#1f77b4"; "#ff7f0e"] |}.

(** Two logs, two more threads over the sample store and a window with
    "Full log" chosen. *)
Definition sample_raw_log : list CanMsg :=
  [frame 0 256 [5; 6]%N 2; frame 1 256 [7]%N 1; frame 2 512 [9]%N 1].

Definition sample_schema_log : list CanMsg :=
  [frame 0 256 [7]%N 1; frame 1 999 [1]%N 1;
   frame 2 768 [5; 40]%N 2; frame 3 768 [0; 40]%N 2;
   frame 4 1280 [9]%N 1].

(** A reader that raises on the record after its second frame. *)
Definition sample_broken_reader : Reader :=
  {| open_error := None;
     frames := [frame 0 256 [5%N] 1; frame 1 256 [7%N] 1];
     read_error := Some "invalid literal for int()" |}.

Definition sample_unknown_log : list CanMsg :=
  [frame 0 999 [1]%N 1; frame 1 998 [] 0].

Definition sample_full_thread : PlotterThread :=
  {| pt_signals_data := sample_store;
     selected_signals := ["[PDU] Engine.RPM"; "Speed.KPH"];
     time_range := None;
     normalize := false;
     plot_styles := ∅ |}.

Definition sample_empty_thread : PlotterThread :=
  {| pt_signals_data := sample_store;
     selected_signals := ["Door.Open"];
     time_range := None;
     normalize := false;
     plot_styles := ∅ |}.

Definition sample_widgets_full : Widgets :=
  {| signal_list_selected := ["[PDU] Engine.RPM"; "Speed.KPH"];
     current_tab_is_raw_data := false;
     time_range_combo := "Full log";
     start_time_spin := 0;
     end_time_spin := 30;
     normalize_check := false;
     linestyle_combo := "--";
     marker_combo := "x";
     color_cycle := ["#1f77b4"; "#ff7f0e"] |}.

Definition fan_speed_signal : DbSignal :=
  {| sig_name := "FanSpeed"; is_multiplexer := false; multiplexer_ids := [0%Z] |}.

(** * Properties *)

(** ** Order tests, minimum and maximum *)

Lemma Qltb_lt (x y : Q) : Qltb x y = true <-> (x < y)%Q.
Proof.
  unfold Qltb. rewrite negb_true_iff. split.
  - intros H. apply Qnot_le_lt. intros Hle.
    apply Qle_bool_iff in Hle. congruence.
  - intros H. destruct (Qle_bool y x) eqn:E; [|reflexivity].
    apply Qle_bool_iff in E. exfalso. exact (Qlt_not_le _ _ H E).
Qed.

Lemma Qltb_ge (x y : Q) : Qltb x y = false <-> (y <= x)%Q.
Proof.
  unfold Qltb. rewrite negb_false_iff. apply Qle_bool_iff.
Qed.

Lemma min_from_lower (l : list Q) :
  forall x, (min_from x l <= x)%Q /\ (forall y, In y l -> (min_from x l <= y)%Q).
Proof.
  induction l as [|a l IH]; intros x; simpl.
  - split; [apply Qle_refl | intros y []].
  - unfold min_from in *. simpl.
    destruct (Qltb a x) eqn:E.
    + destruct (IH a) as [H1 H2]. apply Qltb_lt in E. split.
      * eapply Qle_trans; [exact H1 | apply Qlt_le_weak; exact E].
      * intros y [<- | Hy]; [exact H1 | apply H2; exact Hy].
    + destruct (IH x) as [H1 H2]. apply Qltb_ge in E. split.
      * exact H1.
      * intros y [<- | Hy]; [eapply Qle_trans; eassumption | apply H2; exact Hy].
Qed.

Lemma max_from_upper (l : list Q) :
  forall x, (x <= max_from x l)%Q /\ (forall y, In y l -> (y <= max_from x l)%Q).
Proof.
  induction l as [|a l IH]; intros x; simpl.
  - split; [apply Qle_refl | intros y []].
  - unfold max_from in *. simpl.
    destruct (Qltb x a) eqn:E.
    + destruct (IH a) as [H1 H2]. apply Qltb_lt in E. split.
      * eapply Qle_trans; [apply Qlt_le_weak; exact E | exact H1].
      * intros y [<- | Hy]; [exact H1 | apply H2; exact Hy].
    + destruct (IH x) as [H1 H2]. apply Qltb_ge in E. split.
      * exact H1.
      * intros y [<- | Hy]; [eapply Qle_trans; eassumption | apply H2; exact Hy].
Qed.

Lemma min_from_In (l : list Q) : forall x, In (min_from x l) (x :: l).
Proof.
  induction l as [|a l IH]; intros x; [left; reflexivity|].
  unfold min_from in *. simpl fold_left.
  destruct (Qltb a x).
  - right. apply IH.
  - destruct (IH x) as [H | H]; [left; exact H | right; right; exact H].
Qed.

Lemma max_from_In (l : list Q) : forall x, In (max_from x l) (x :: l).
Proof.
  induction l as [|a l IH]; intros x; [left; reflexivity|].
  unfold max_from in *. simpl fold_left.
  destruct (Qltb x a).
  - right. apply IH.
  - destruct (IH x) as [H | H]; [left; exact H | right; right; exact H].
Qed.

(** The minimum and the maximum bound every element of the sequence. *)
Lemma min_max_bounds (x : Q) (l : list Q) (y : Q) :
  In y (x :: l) -> (min_from x l <= y)%Q /\ (y <= max_from x l)%Q.
Proof.
  destruct (min_from_lower l x) as [H1 H2].
  destruct (max_from_upper l x) as [H3 H4].
  intros [<- | Hy]; split; auto.
Qed.

(** ** Filtering by the window *)

Lemma in_window_iff (s e : Q) (row : Q * Q) :
  in_window s e row = true <-> (s <= fst row)%Q /\ (fst row <= e)%Q.
Proof.
  unfold in_window. rewrite andb_true_iff, !Qle_bool_iff. reflexivity.
Qed.



(** A window that covers every timestamp of a series keeps all of it. *)
Lemma filter_window_all (s e : Q) (rows : Series) :
  (forall row, In row rows -> (s <= fst row)%Q /\ (fst row <= e)%Q) ->
  filter_window s e rows = rows.
Proof.
  unfold filter_window. induction rows as [|r rows IH]; intros H; simpl; [reflexivity|].
  assert (Hr : in_window s e r = true) by (apply in_window_iff, H; left; reflexivity).
  rewrite Hr. f_equal. apply IH. intros row Hrow. apply H. right. exact Hrow.
Qed.

(** ** Normalisation *)

Lemma normalized_off (values : list Q) : normalized false values = values.
Proof. destruct values; reflexivity. Qed.

Lemma normalized_rescaled (v : Q) (vs : list Q) :
  (exists a b, In a (v :: vs) /\ In b (v :: vs) /\ ~ (a == b)%Q) ->
  normalized true (v :: vs) =
  List.map (fun x => ((x - min_from v vs) / (max_from v vs - min_from v vs))%Q) (v :: vs).
Proof.
  intros (a & b & Ha & Hb & Hab).
  assert (Hlt : (min_from v vs < max_from v vs)%Q).
  { destruct (min_max_bounds v vs a Ha) as [Ha1 Ha2].
    destruct (min_max_bounds v vs b Hb) as [Hb1 Hb2].
    destruct (Q_dec a b) as [[Hlt | Hgt] | Heq]; [| |contradiction].
    - eapply Qle_lt_trans; [exact Ha1|]. eapply Qlt_le_trans; eassumption.
    - eapply Qle_lt_trans; [exact Hb1|]. eapply Qlt_le_trans; eassumption. }
  apply Qltb_lt in Hlt. unfold normalized. rewrite Hlt. reflexivity.
Qed.

Lemma normalized_constant (values : list Q) :
  (forall a b, In a values -> In b values -> (a == b)%Q) ->
  normalized true values = values.
Proof.
  destruct values as [|v vs]; [reflexivity|]. intros Heq.
  assert (H : (max_from v vs <= min_from v vs)%Q).
  { apply Qle_lteq. right. apply Heq; [apply max_from_In | apply min_from_In]. }
  apply Qltb_ge in H. unfold normalized. rewrite H. reflexivity.
Qed.

(** ** The dictionary built by the preparation loop *)

Section PlotLoop.
Variable self : PlotterThread.
Variables start_time end_time : Q.

Lemma plot_step_lookup (pd : gmap string PlotEntry) (signal k : string) (e : PlotEntry) :
  plot_step self start_time end_time pd signal !! k = Some e ->
  pd !! k = Some e \/ (clean_signal signal = k /\ prepared self start_time end_time signal e).
Proof.
  unfold plot_step, prepared.
  destruct (pt_signals_data self !! clean_signal signal) as [rows|] eqn:Hrows;
    [|auto].
  destruct (filter_window start_time end_time rows) as [|r fl] eqn:Hf; [auto|].
  destruct (decide (clean_signal signal = k)) as [<- | Hne].
  - rewrite lookup_insert_eq. intros [= <-]. right. split; [reflexivity|].
    exists rows. rewrite Hf. repeat split; congruence.
  - rewrite lookup_insert_ne by exact Hne. auto.
Qed.

Lemma plot_loop_lookup (selected : list string) :
  forall (pd : gmap string PlotEntry) (k : string) (e : PlotEntry),
    fold_left (plot_step self start_time end_time) selected pd !! k = Some e ->
    pd !! k = Some e \/
    exists signal, In signal selected /\ clean_signal signal = k /\ prepared self start_time end_time signal e.
Proof.
  induction selected as [|s sel IH]; intros pd k e; simpl; [auto|].
  intros H. apply IH in H as [H | (signal & Hin & Hk & Hp)].
  - apply plot_step_lookup in H as [H | [Hk Hp]]; [auto|].
    right. exists s. auto.
  - right. exists signal. auto.
Qed.

Lemma plot_step_keeps (pd : gmap string PlotEntry) (signal k : string) :
  is_Some (pd !! k) -> is_Some (plot_step self start_time end_time pd signal !! k).
Proof.
  unfold plot_step. intros H.
  destruct (pt_signals_data self !! clean_signal signal) as [rows|]; [|exact H].
  destruct (filter_window start_time end_time rows) as [|r fl]; [exact H|].
  destruct (decide (clean_signal signal = k)) as [<- | Hne].
  - rewrite lookup_insert_eq. eauto.
  - rewrite lookup_insert_ne by exact Hne. exact H.
Qed.

Lemma plot_loop_keeps (selected : list string) :
  forall (pd : gmap string PlotEntry) (k : string),
    is_Some (pd !! k) -> is_Some (fold_left (plot_step self start_time end_time) selected pd !! k).
Proof.
  induction selected as [|s sel IH]; intros pd k H; simpl; [exact H|].
  apply IH, plot_step_keeps, H.
Qed.

(** A selected signal with rows in the window is in the result. *)
Lemma plot_loop_present (selected : list string) :
  forall (pd : gmap string PlotEntry) (signal : string) (rows : Series),
    In signal selected ->
    pt_signals_data self !! clean_signal signal = Some rows ->
    filter_window start_time end_time rows <> [] ->
    is_Some (fold_left (plot_step self start_time end_time) selected pd !! clean_signal signal).
Proof.
  induction selected as [|s sel IH]; intros pd signal rows [] Hrows Hf; simpl.
  - subst s. apply plot_loop_keeps. unfold plot_step. rewrite Hrows.
    destruct (filter_window start_time end_time rows) as [|r fl]; [congruence|].
    rewrite lookup_insert_eq. eauto.
  - eapply IH; eassumption.
Qed.

(** A selected signal without rows in the window is not. *)
Lemma plot_loop_absent (selected : list string) (k : string) :
  (forall signal rows,
      In signal selected -> clean_signal signal = k ->
      pt_signals_data self !! k = Some rows ->
      filter_window start_time end_time rows = []) ->
  fold_left (plot_step self start_time end_time) selected ∅ !! k = None.
Proof.
  intros H. destruct (fold_left (plot_step self start_time end_time) selected ∅ !! k) as [e|] eqn:E; [|reflexivity].
  apply plot_loop_lookup in E as [E | (signal & Hin & Hk & rows & Hrows & Hf & _)].
  - rewrite lookup_empty in E. discriminate.
  - rewrite Hk in Hrows. exfalso. apply Hf. eapply H; eassumption.
Qed.
End PlotLoop.

(** ** The run of the preparation thread *)

Lemma dict_is_empty_true {V : Type} (d : gmap string V) :
  dict_is_empty d = true <-> d = ∅.
Proof.
  unfold dict_is_empty. rewrite bool_decide_eq_true. apply map_size_empty_iff.
Qed.

Lemma dict_is_empty_false {V : Type} (d : gmap string V) :
  dict_is_empty d = false <-> d <> ∅.
Proof.
  rewrite <- dict_is_empty_true. destruct (dict_is_empty d); split; congruence.
Qed.

Lemma run_finished_inv (self : PlotterThread) (pd : gmap string PlotEntry) :
  PlotterThread_run self = PlotFinished pd ->
  exists s t,
    effective_window self = inr (s, t) /\
    pd = fold_left (plot_step self s t) (selected_signals self) ∅ /\
    pd <> ∅.
Proof.
  unfold PlotterThread_run.
  destruct (effective_window self) as [e | [s t]]; [discriminate|].
  destruct (dict_is_empty _) eqn:E; [discriminate|].
  intros [= <-]. exists s, t. repeat split. apply dict_is_empty_false, E.
Qed.

Lemma all_timestamps_In (sd : gmap string Series) (selected : list string)
    (signal : string) (rows : Series) (row : Q * Q) :
  In signal selected -> sd !! clean_signal signal = Some rows -> In row rows ->
  In (fst row) (all_timestamps sd selected).
Proof.
  intros Hin Hrows Hrow. unfold all_timestamps. apply in_flat_map.
  exists signal. split; [exact Hin|]. rewrite Hrows. apply in_map, Hrow.
Qed.

(** The full range keeps every row of every selected series. *)
Lemma full_range_covers (self : PlotterThread) (s t : Q) (signal : string)
    (rows : Series) :
  time_range self = None -> effective_window self = inr (s, t) ->
  In signal (selected_signals self) ->
  pt_signals_data self !! clean_signal signal = Some rows ->
  filter_window s t rows = rows.
Proof.
  unfold effective_window. intros -> Hw Hin Hrows.
  destruct (all_timestamps _ _) as [|t0 ts] eqn:Hall; [discriminate|].
  injection Hw as <- <-. apply filter_window_all. intros row Hrow.
  apply min_max_bounds. rewrite <- Hall.
  eapply all_timestamps_In; eassumption.
Qed.

Lemma all_timestamps_nil (sd : gmap string Series) (selected : list string) :
  all_timestamps sd selected = [] <->
  forall signal rows,
    In signal selected -> sd !! clean_signal signal = Some rows -> rows = [].
Proof.
  split.
  - intros Hall signal rows Hin Hrows. destruct rows as [|row rows]; [reflexivity|].
    assert (H : In (fst row) (all_timestamps sd selected)).
    { eapply all_timestamps_In; [exact Hin | exact Hrows | left; reflexivity]. }
    rewrite Hall in H. destruct H.
  - intros H. unfold all_timestamps.
    induction selected as [|s sel IH]; simpl; [reflexivity|].
    rewrite IH by (intros; eapply H; [right|]; eassumption).
    destruct (sd !! clean_signal s) as [rows|] eqn:E; [|reflexivity].
    rewrite (H s rows) by (auto; left; reflexivity). reflexivity.
Qed.

Lemma run_error_iff (self : PlotterThread) :
  (exists e, PlotterThread_run self = PlotError e) <->
  (forall signal, In signal (selected_signals self) -> resolves_no_data self signal).
Proof.
  unfold resolves_no_data. split.
  - intros [e He] signal Hin.
    destruct (pt_signals_data self !! clean_signal signal) as [rows|] eqn:Hrows;
      [|exact I].
    unfold PlotterThread_run in He.
    destruct (effective_window self) as [e' | [s t]] eqn:Hw.
    + unfold effective_window in Hw.
      destruct (time_range self) as [r|]; [discriminate|].
      destruct (all_timestamps _ _) eqn:Hall; [|discriminate].
      eapply all_timestamps_nil; eassumption.
    + destruct (dict_is_empty _) eqn:E; [|discriminate].
      apply dict_is_empty_true in E.
      assert (Hf : filter_window s t rows = []).
      { destruct (filter_window s t rows) as [|r fl] eqn:Hf; [reflexivity|].
        destruct (plot_loop_present self s t (selected_signals self) ∅ signal rows
                    Hin Hrows) as [x Hx]; [congruence|].
        rewrite E, lookup_empty in Hx. discriminate. }
      destruct (time_range self) as [[s' t']|] eqn:Htr.
      * unfold effective_window in Hw. rewrite Htr in Hw. congruence.
      * rewrite <- (full_range_covers self s t signal rows Htr Hw Hin Hrows).
        exact Hf.
  - intros H. unfold PlotterThread_run.
    destruct (effective_window self) as [e | [s t]] eqn:Hw; [eauto|].
    assert (E : fold_left (plot_step self s t) (selected_signals self) ∅ = ∅).
    { apply map_empty. intros k. apply plot_loop_absent.
      intros signal rows Hin Hk Hrows. specialize (H signal Hin).
      rewrite Hk, Hrows in H.
      destruct (time_range self) as [[s' t']|] eqn:Htr.
      - unfold effective_window in Hw. rewrite Htr in Hw. congruence.
      - subst rows. reflexivity. }
    apply dict_is_empty_true in E. rewrite E. eauto.
Qed.

(** C4.  In a finished preparation with [normalize] set, the values of an
    entry are the filtered values [vals] of its series: with [lo] and [hi]
    the least and the greatest of them, every value [v] is rescaled to
    [(v - lo) / (hi - lo)] when two of the values differ, and the values are
    left as they are when all of them are equal. *)
Theorem normalize_rescales_or_keeps (self : PlotterThread)
    (pd : gmap string PlotEntry) (k : string) (e : PlotEntry) :
  normalize self = true ->
  PlotterThread_run self = PlotFinished pd ->
  pd !! k = Some e ->
  exists rows s t vals lo hi,
    effective_window self = inr (s, t) /\
    pt_signals_data self !! k = Some rows /\
    vals = List.map snd (filter_window s t rows) /\
    In lo vals /\ In hi vals /\
    (forall v, In v vals -> (lo <= v)%Q /\ (v <= hi)%Q) /\
    ((exists a b, In a vals /\ In b vals /\ ~ (a == b)%Q) ->
     values e = List.map (fun v => ((v - lo) / (hi - lo))%Q) vals) /\
    ((forall a b, In a vals -> In b vals -> (a == b)%Q) -> values e = vals).
Proof.
  intros Hn Hrun Hk.
  apply run_finished_inv in Hrun as (s & t & Hw & -> & _).
  apply plot_loop_lookup in Hk as [Hk | (signal & _ & <- & rows & Hrows & Hf & ->)].
  { rewrite lookup_empty in Hk. discriminate. }
  destruct (List.map snd (filter_window s t rows)) as [|v vs] eqn:Hvals.
  { destruct (filter_window s t rows); [congruence | discriminate]. }
  exists rows, s, t, (v :: vs), (min_from v vs), (max_from v vs).
  repeat split; auto using min_from_In, max_from_In.
  - apply min_max_bounds. assumption.
  - apply min_max_bounds. assumption.
  - intros Hd. simpl values. rewrite Hn, Hvals. apply normalized_rescaled, Hd.
  - intros Hc. simpl values. rewrite Hn, Hvals. apply normalized_constant, Hc.
Qed.

(** C5.  The preparation fails exactly when every selected signal resolves
    to no data; when it finishes, a selected signal is left out of the
    result exactly when it resolves to no data, and every other selected
    signal is returned with its filtered rows. *)
Theorem empty_signal_skipped_others_returned (self : PlotterThread) :
  ((exists e, PlotterThread_run self = PlotError e) <->
   (forall signal, In signal (selected_signals self) -> resolves_no_data self signal)) /\
  (forall pd, PlotterThread_run self = PlotFinished pd ->
     exists s t,
       effective_window self = inr (s, t) /\
       forall signal, In signal (selected_signals self) ->
         (pd !! clean_signal signal = None <-> resolves_no_data self signal) /\
         (forall rows,
             pt_signals_data self !! clean_signal signal = Some rows ->
             filter_window s t rows <> [] ->
             exists e, pd !! clean_signal signal = Some e /\
                       timestamps e = List.map fst (filter_window s t rows))).
Proof.
  split; [apply run_error_iff|].
  intros pd Hrun. apply run_finished_inv in Hrun as (s & t & Hw & -> & _).
  exists s, t. split; [exact Hw|]. intros signal Hin.
  assert (Hnd : resolves_no_data self signal <->
                forall rows, pt_signals_data self !! clean_signal signal = Some rows ->
                             filter_window s t rows = []).
  { unfold resolves_no_data.
    destruct (pt_signals_data self !! clean_signal signal) as [rows|] eqn:Hrows.
    - destruct (time_range self) as [[s' t']|] eqn:Htr.
      + unfold effective_window in Hw. rewrite Htr in Hw. injection Hw as -> ->.
        split; [intros H r [= <-]; exact H | auto].
      + rewrite <- (full_range_covers self s t signal rows Htr Hw Hin Hrows) at 1.
        split; [intros H r [= <-]; exact H | auto].
    - split; [intros _ r; discriminate | auto]. }
  split.
  - rewrite Hnd. split.
    + intros Hnone rows Hrows.
      destruct (filter_window s t rows) as [|r fl] eqn:Hf; [reflexivity|].
      destruct (plot_loop_present self s t (selected_signals self) ∅ signal rows
                  Hin Hrows) as [x Hx]; [congruence|].
      rewrite Hnone in Hx. discriminate.
    + intros H.
      destruct (fold_left _ _ _ !! clean_signal signal) as [e|] eqn:E; [|reflexivity].
      apply plot_loop_lookup in E as [E | (sg & _ & Hk & rows & Hrows & Hf & _)].
      * rewrite lookup_empty in E. discriminate.
      * rewrite Hk in Hrows. exfalso. apply Hf, H, Hrows.
  - intros rows Hrows Hf.
    destruct (plot_loop_present self s t (selected_signals self) ∅ signal rows
                Hin Hrows Hf) as [e He].
    exists e. split; [exact He|].
    apply plot_loop_lookup in He as [He | (sg & _ & Hk & rows' & Hrows' & _ & ->)].
    + rewrite lookup_empty in He. discriminate.
    + rewrite Hk, Hrows in Hrows'. injection Hrows' as <-. reflexivity.
Qed.


(** ** The series map while a frame is decoded *)

Lemma ensure_key_lookup (key k : string) (sd : gmap string Series) :
  ensure_key key sd !! k =
  if decide (key = k) then Some (default [] (sd !! k)) else sd !! k.
Proof.
  unfold ensure_key. destruct (decide (key = k)) as [<- | Hne].
  - destruct (sd !! key) as [rows|] eqn:E.
    + rewrite E. reflexivity.
    + rewrite lookup_insert_eq. reflexivity.
  - destruct (sd !! key); [reflexivity|]. rewrite lookup_insert_ne by exact Hne.
    reflexivity.
Qed.

Lemma append_sample_lookup (key k : string) (sample : Q * Q) (sd : gmap string Series) :
  append_sample key sample sd !! k =
  if decide (key = k) then (fun rows => rows ++ [sample]) <$> sd !! k else sd !! k.
Proof.
  unfold append_sample. destruct (decide (key = k)) as [<- | Hne].
  - apply lookup_alter_eq.
  - apply lookup_alter_ne, Hne.
Qed.


(** An entry whose conversion does not raise [OverflowError]: the loop
    goes on, with the sample appended to the series of the key, or with
    the series of the key created and left as it was. *)
Lemma store_signal_passed (ts : Q) (m : string) (sd : gmap string Series)
    (out : list diag) (n : string) (v : pyval) :
  overflows v = false ->
  exists sd' out',
    store_signal ts m (sd, out) (n, v) = inr (sd', out') /\
    (forall k, sd' !! k =
       if decide (schema_key m n = k)
       then Some (default [] (sd !! k) ++
                  match float_or_zero v with inr q => [(ts, q)] | inl _ => [] end)
       else sd !! k) /\
    out' = out ++ [match float_or_zero v with
                   | inr q => PStored (schema_key m n) q ts
                   | inl _ => PNonNumeric (schema_key m n) v
                   end].
Proof.
  unfold overflows, store_signal. destruct (float_or_zero v) as [[|]|q]; [|discriminate|];
    intros _; eexists; eexists; (split; [reflexivity|]); (split; [|reflexivity]);
    intros k.
  - rewrite ensure_key_lookup.
    destruct (decide (schema_key m n = k)); [rewrite app_nil_r|]; reflexivity.
  - rewrite append_sample_lookup, ensure_key_lookup.
    destruct (decide (schema_key m n = k)); reflexivity.
Qed.

(** An entry whose conversion raises [OverflowError]: the loop is left,
    with the key created. *)
Lemma store_signal_left (ts : Q) (m : string) (sd : gmap string Series)
    (out : list diag) (n : string) (v : pyval) :
  overflows v = true ->
  store_signal ts m (sd, out) (n, v) =
  inl (overflow_text, (ensure_key (schema_key m n) sd, out)).
Proof.
  unfold overflows, store_signal.
  destruct (float_or_zero v) as [[|]|q]; try discriminate. reflexivity.
Qed.

#[local] Arguments store_signal : simpl never.






(** The series of a key after the loop over a decoded dictionary: what it
    held before, then the samples of the entries of that key that the loop
    got past and that convert. *)
Lemma store_loop_series (ts : Q) (m : string) (decoded : list (string * pyval)) :
  forall (acc : gmap string Series * list diag) (k : string),
    default [] (fst (left_by (store_signals ts m decoded acc)) !! k) =
    default [] (fst acc !! k) ++ samples_from ts m k decoded.
Proof.
  unfold samples_from.
  induction decoded as [|[n v] decoded IH]; intros [sd out] k; simpl.
  - rewrite app_nil_r. reflexivity.
  - destruct (overflows v) eqn:E.
    + rewrite (store_signal_left ts m sd out n v E). simpl.
      rewrite ensure_key_lookup, app_nil_r.
      destruct (decide (schema_key m n = k)); reflexivity.
    + destruct (store_signal_passed ts m sd out n v E) as (sd' & out' & -> & Hsd & _).
      rewrite IH. simpl. rewrite Hsd. unfold bool_decide.
      destruct (decide (schema_key m n = k)); simpl.
      * destruct (decide_rel eq (schema_key m n) k); [|contradiction].
        rewrite <- app_assoc. reflexivity.
      * destruct (decide_rel eq (schema_key m n) k); [contradiction|].
        reflexivity.
Qed.



Lemma decode_with_db_decoded (db : Database) (msg : CanMsg) (message : DbMessage)
    (decoded : list (string * pyval)) (sd : gmap string Series) (out : list diag) :
  get_message_by_frame_id db (arbitration_id msg) = Some message ->
  decode message (data msg) = inr decoded ->
  decode_with_db db msg sd out =
  let r := store_signals (timestamp msg) (name message) decoded
             (sd, (out ++ [PProcessing (arbitration_id msg) (timestamp msg)
                                       (dlc msg) (data msg)])
                  ++ [PDecoded (name message) (arbitration_id msg) decoded]) in
  (fst (left_by r),
   snd (left_by r) ++
   match r with
   | inr _ => mux_prints message
   | inl (err, _) => [PDecodingFailed (name message) (arbitration_id msg) err]
   end).
Proof.
  intros Hm Hd. unfold decode_with_db. rewrite Hm, Hd. cbv zeta.
  destruct (store_signals _ _ _ _) as [[err [sd' out']] | [sd' out']]; reflexivity.
Qed.

Lemma decode_with_db_failed (db : Database) (msg : CanMsg) (message : DbMessage)
    (err : string) (sd : gmap string Series) (out : list diag) :
  get_message_by_frame_id db (arbitration_id msg) = Some message ->
  decode message (data msg) = inl err ->
  decode_with_db db msg sd out =
  (sd, (out ++ [PProcessing (arbitration_id msg) (timestamp msg) (dlc msg) (data msg)])
       ++ [PDecodingFailed (name message) (arbitration_id msg) err]).
Proof.
  intros Hm Hd. unfold decode_with_db. rewrite Hm, Hd. reflexivity.
Qed.

Lemma samples_from_In (ts : Q) (m k : string) (decoded : list (string * pyval))
    (row : Q * Q) :
  In row (samples_from ts m k decoded) <->
  exists n v, In (n, v) (entries_passed decoded) /\ schema_key m n = k /\
              fst row = ts /\ float_or_zero v = inr (snd row).
Proof.
  unfold samples_from. rewrite in_flat_map. split.
  - intros ([n v] & Hin & Hrow). simpl in Hrow.
    destruct (bool_decide (schema_key m n = k)) eqn:E; [|destruct Hrow].
    apply bool_decide_eq_true in E.
    destruct (float_or_zero v) as [err|q] eqn:Hv; [destruct Hrow|].
    destruct Hrow as [<- | []]. exists n, v. auto.
  - intros (n & v & Hin & Hk & Hts & Hv). exists (n, v). split; [exact Hin|].
    simpl. rewrite bool_decide_eq_true_2 by exact Hk. rewrite Hv.
    left. destruct row; simpl in *; congruence.
Qed.


(** ** Invariants of the loader loop *)

Lemma loop_invariant (P : LoaderState -> Prop) (db : option Database) (total : nat) :
  (forall st msg st', P st -> loop_body db total st msg = inr st' -> P st') ->
  forall reader st, P st ->
    match loop db total st reader with
    | inl (_, st') => P st'
    | inr st' => P st'
    end.
Proof.
  intros Hstep reader. induction reader as [|msg rest IH]; intros st Hst; simpl.
  - exact Hst.
  - destruct (loop_body db total st msg) as [e | st'] eqn:E; [exact Hst|].
    apply IH. eapply Hstep; eassumption.
Qed.

Lemma series_justified_more (sd : gmap string Series) (out extra : list diag) :
  series_justified sd out -> series_justified sd (out ++ extra).
Proof.
  intros H k rows Hk.
  destruct (H k rows Hk) as [Hne | [[v Hv] | (mn & sn & id & Hkey & Hin)]]; [auto| |].
  - right. left. exists v. apply in_or_app. auto.
  - right. right. exists mn, sn, id. split; [exact Hkey|]. apply in_or_app. auto.
Qed.

Lemma store_signal_justified (ts : Q) (m : string) (sd sd' : gmap string Series)
    (out out' : list diag) (n : string) (v : pyval) :
  series_justified sd out ->
  store_signal ts m (sd, out) (n, v) = inr (sd', out') ->
  series_justified sd' out'.
Proof.
  intros H Hs. destruct (overflows v) eqn:E.
  - rewrite (store_signal_left ts m sd out n v E) in Hs. discriminate.
  - destruct (store_signal_passed ts m sd out n v E) as (sd1 & out1 & Hs1 & Hsd & Hout).
    rewrite Hs1 in Hs. injection Hs as <- <-. subst out1.
    intros k rows. rewrite Hsd.
    destruct (decide (schema_key m n = k)) as [<- | Hne].
    + intros [= <-]. destruct (float_or_zero v) as [err|q].
      * right. left. exists v. apply in_or_app. right. left. reflexivity.
      * left. destruct (default [] (sd !! schema_key m n)); discriminate.
    + intros Hk. apply (series_justified_more sd out _ H k rows Hk).
Qed.

(** After the loop over a decoded dictionary every series has a row or a
    print for its key, but for the key at which the loop was left: the
    print for that one is made by the handler. *)
Lemma store_loop_justified (ts : Q) (m : string) (decoded : list (string * pyval)) :
  forall acc : gmap string Series * list diag,
    series_justified (fst acc) (snd acc) ->
    forall k rows,
      fst (left_by (store_signals ts m decoded acc)) !! k = Some rows ->
      rows <> [] \/
      (exists v, In (PNonNumeric k v) (snd (left_by (store_signals ts m decoded acc)))) \/
      (exists message_name signal_name id,
          k = schema_key message_name signal_name /\
          In (PDecodingFailed message_name id overflow_text)
             (snd (left_by (store_signals ts m decoded acc)))) \/
      (exists a n, store_signals ts m decoded acc = inl (overflow_text, a) /\
                   k = schema_key m n).
Proof.
  induction decoded as [|[n v] decoded IH]; intros [sd out] H k rows; simpl.
  - intros Hk. destruct (H k rows Hk) as [?|[?|?]]; auto.
  - destruct (overflows v) eqn:E.
    + rewrite (store_signal_left ts m sd out n v E). simpl. rewrite ensure_key_lookup.
      destruct (decide (schema_key m n = k)) as [<- | Hne].
      * intros _. right. right. right. eexists. exists n. split; reflexivity.
      * intros Hk. destruct (H k rows Hk) as [?|[?|?]]; auto.
    + destruct (store_signal_passed ts m sd out n v E) as (sd' & out' & Hs & _).
      rewrite Hs. simpl. intros Hk.
      pose proof (store_signal_justified ts m sd sd' out out' n v H Hs) as H'.
      destruct (IH (sd', out') H' k rows Hk) as [?|[?|[?|(a & n' & Hr & Hkey)]]]; auto.
Qed.

Lemma decode_with_db_justified (db : Database) (msg : CanMsg)
    (sd : gmap string Series) (out : list diag) :
  series_justified sd out ->
  series_justified (fst (decode_with_db db msg sd out))
                   (snd (decode_with_db db msg sd out)).
Proof.
  intros H.
  destruct (get_message_by_frame_id db (arbitration_id msg)) as [message|] eqn:Hm.
  2: { unfold decode_with_db. rewrite Hm. apply series_justified_more, H. }
  destruct (decode message (data msg)) as [err | decoded] eqn:Hd.
  { rewrite (decode_with_db_failed db msg message err sd out Hm Hd).
    apply series_justified_more, series_justified_more, H. }
  rewrite (decode_with_db_decoded db msg message decoded sd out Hm Hd).
  cbv zeta. simpl fst; simpl snd.
  pose proof (store_loop_justified (timestamp msg) (name message) decoded
                (sd, (out ++ [PProcessing (arbitration_id msg) (timestamp msg)
                                          (dlc msg) (data msg)])
                     ++ [PDecoded (name message) (arbitration_id msg) decoded])) as Hl.
  simpl fst in Hl; simpl snd in Hl.
  specialize (Hl (series_justified_more _ _ _ (series_justified_more _ _ _ H))).
  intros k rows Hk.
  destruct (Hl k rows Hk)
    as [Hne | [[v Hv] | [(mn & sn & id & Hkey & Hin) | (a & n & Hr & Hkey)]]].
  - left. exact Hne.
  - right. left. exists v. apply in_or_app. auto.
  - right. right. exists mn, sn, id. split; [exact Hkey|]. apply in_or_app. auto.
  - right. right. exists (name message), n, (arbitration_id msg).
    split; [exact Hkey|]. rewrite Hr. apply in_or_app. right. left. reflexivity.
Qed.

(** Without a schema every step leaves a row in the series it touches. *)
Lemma store_bytes_nonempty (msg : CanMsg) (indices : list nat) :
  forall sd sd' : gmap string Series,
    (forall k rows, sd !! k = Some rows -> rows <> []) ->
    store_bytes msg indices sd = inr sd' ->
    forall k rows, sd' !! k = Some rows -> rows <> [].
Proof.
  induction indices as [|i rest IH]; intros sd sd' H; simpl.
  - intros [= <-]. exact H.
  - destruct (data msg !! i) as [b|]; [|discriminate].
    apply IH. intros k rows.
    rewrite append_sample_lookup, ensure_key_lookup.
    destruct (decide (raw_key (arbitration_id msg) i = k)).
    + intros [= <-]. destruct (default [] (sd !! k)); discriminate.
    + apply H.
Qed.

Lemma store_bytes_justified (msg : CanMsg) (out : list diag) (indices : list nat) :
  forall sd sd' : gmap string Series,
    series_justified sd out ->
    store_bytes msg indices sd = inr sd' ->
    series_justified sd' out.
Proof.
  induction indices as [|i rest IH]; intros sd sd' H; simpl.
  - intros [= <-]. exact H.
  - destruct (data msg !! i) as [b|]; [|discriminate].
    apply IH. intros k rows.
    rewrite append_sample_lookup, ensure_key_lookup.
    destruct (decide (raw_key (arbitration_id msg) i = k)).
    + intros [= <-]. left. destruct (default [] (sd !! k)); discriminate.
    + apply H.
Qed.

Lemma loop_body_justified (db : option Database) (total : nat)
    (st st' : LoaderState) (msg : CanMsg) :
  series_justified (signals_data st) (printed st) ->
  loop_body db total st msg = inr st' ->
  series_justified (signals_data st') (printed st').
Proof.
  intros H. unfold loop_body. destruct db as [db|].
  - pose proof (decode_with_db_justified db msg _ _ H) as Hd.
    destruct (decode_with_db db msg (signals_data st) (printed st)) as [sd out].
    intros [= <-]. exact Hd.
  - destruct (store_bytes msg (seq 0 (dlc msg)) (signals_data st)) as [e | sd] eqn:E;
      [discriminate|].
    intros [= <-]. simpl. eapply store_bytes_justified; eassumption.
Qed.

(** Without a schema nothing is printed inside the loop. *)
Lemma loop_body_raw_silent (total : nat) (st st' : LoaderState) (msg : CanMsg) :
  printed st = [] -> loop_body None total st msg = inr st' -> printed st' = [].
Proof.
  intros H. unfold loop_body.
  destruct (store_bytes msg (seq 0 (dlc msg)) (signals_data st)); [discriminate|].
  intros [= <-]. exact H.
Qed.

(** ** Progress *)

Lemma progress_value_range (processed total : nat) :
  (0 <= progress_value processed total <= 100)%Z.
Proof.
  unfold progress_value. split; [|apply Z.le_min_l].
  apply Z.min_glb; [lia|].
  set (x := (inject_Z (Z.of_nat processed) / inject_Z (Z.of_nat total) * 100)%Q).
  assert (Hx : (0 <= x)%Q).
  { unfold x. apply Qmult_le_0_compat; [|discriminate].
    unfold Qdiv. apply Qmult_le_0_compat; [|apply Qinv_le_0_compat];
      unfold Qle; simpl; lia. }
  unfold py_int. apply Qle_bool_iff in Hx as Hb. rewrite Hb.
  change 0%Z with (Qfloor 0). apply Qfloor_resp_le, Hx.
Qed.

Lemma loop_body_progress (db : option Database) (total : nat)
    (st st' : LoaderState) (msg : CanMsg) :
  loop_body db total st msg = inr st' ->
  emitted st' = emitted st \/
  ((0 < total)%nat /\ exists p, (0 <= p <= 100)%Z /\ emitted st' = emitted st ++ [p]).
Proof.
  unfold loop_body.
  destruct (match db with Some d => _ | None => _ end) as [e | [sd out]];
    [discriminate|].
  intros [= <-]. simpl. destruct (0 <? total)%nat eqn:E; [|auto].
  right. split; [apply Nat.ltb_lt, E|].
  eexists. split; [apply progress_value_range | reflexivity].
Qed.

Lemma loop_body_same_store (db : option Database) (t1 t2 : nat)
    (a b : LoaderState) (msg : CanMsg) :
  same_store a b ->
  match loop_body db t1 a msg, loop_body db t2 b msg with
  | inr a', inr b' => same_store a' b'
  | inl e1, inl e2 => e1 = e2
  | _, _ => False
  end.
Proof.
  intros (Hm & Hs & Hp & Ho). unfold loop_body. rewrite Hm, Hs, Hp, Ho.
  destruct (match db with Some d => _ | None => _ end) as [e | [sd out]];
    [reflexivity|].
  repeat split.
Qed.

Lemma loop_same_store (db : option Database) (t1 t2 : nat) (reader : list CanMsg) :
  forall a b, same_store a b ->
    match loop db t1 a reader, loop db t2 b reader with
    | inr a', inr b' => same_store a' b'
    | inl (e1, a'), inl (e2, b') => e1 = e2 /\ same_store a' b'
    | _, _ => False
    end.
Proof.
  induction reader as [|msg rest IH]; intros a b H; simpl; [exact H|].
  pose proof (loop_body_same_store db t1 t2 a b msg H) as Hb.
  destruct (loop_body db t1 a msg) as [e1 | a'], (loop_body db t2 b msg) as [e2 | b'];
    try contradiction; [split; assumption|].
  apply IH, Hb.
Qed.

(** ** The loader: decoded values and stored samples *)





(** ** The loader: the finished series map and the progress *)

Lemma run_loop_invariant (P : LoaderState -> Prop) (db : option Database)
    (total : nat) (reader : list CanMsg) :
  P {| messages := []; signals_data := ∅; processed_messages := 0;
       emitted := []; printed := [] |} ->
  (forall st msg st', P st -> loop_body db total st msg = inr st' -> P st') ->
  match loop db total
          {| messages := []; signals_data := ∅; processed_messages := 0;
             emitted := []; printed := [] |} reader with
  | inl (_, st) => P st
  | inr st => P st
  end.
Proof.
  intros H0 Hstep. apply loop_invariant; assumption.
Qed.

(** C2 (as amended).  After a completed load every key of the series map
    has a series with at least one row, or a print records why a value
    decoded for that key gave none: "Non-numeric value" for the key, or
    "Decoding failed" for its message with the text of the
    [OverflowError] (a key whose values never converted is present with
    an empty series); without a schema every series has a row. *)
Theorem stored_series_nonempty_or_diagnosed (ext : string) (db : option Database)
    (line_count : option nat) (reader : Reader)
    (df : list MsgData) (sd : gmap string Series) :
  outcome (LogLoaderThread_run ext db line_count reader) = Finished df sd ->
  forall k rows, sd !! k = Some rows ->
    (rows <> [] \/
     (exists v, In (PNonNumeric k v)
                   (output (LogLoaderThread_run ext db line_count reader))) \/
     (exists message_name signal_name id,
         k = schema_key message_name signal_name /\
         In (PDecodingFailed message_name id overflow_text)
            (output (LogLoaderThread_run ext db line_count reader)))) /\
    (db = None -> rows <> []).
Proof.
  intros Hrun k rows Hk. unfold LogLoaderThread_run in *.
  destruct (negb _); [discriminate|].
  destruct (open_error reader); [discriminate|].
  pose proof (run_loop_invariant
                (fun st => series_justified (signals_data st) (printed st) /\
                           (db = None -> printed st = []))
                db (default 0%nat line_count) (frames reader)) as Hinv.
  destruct (loop _ _ _ (frames reader)) as [[e st] | st]; [discriminate|].
  destruct (read_error reader); [discriminate|].
  simpl in Hrun. injection Hrun as <- <-.
  destruct Hinv as [Hj Hs].
  { split; [|reflexivity]. intros k' rows' Hk'. simpl in Hk'.
    rewrite lookup_empty in Hk'. discriminate. }
  { intros st0 msg st' [Hj Hs] Hb. split.
    - eapply loop_body_justified; eassumption.
    - intros ->. eapply loop_body_raw_silent; eauto. }
  rewrite lookup_fmap in Hk.
  destruct (signals_data st !! k) as [rows0|] eqn:E; [|discriminate].
  simpl in Hk. injection Hk as <-. unfold DataFrame.
  assert (Hout : forall d, In d (printed st) ->
            In d (if dict_is_empty (DataFrame <$> signals_data st)
                  then (printed st ++
                        [PProcessed (processed_messages st)
                                    (size (DataFrame <$> signals_data st))])
                       ++ [PWarnNoSignals]
                  else printed st ++
                       [PProcessed (processed_messages st)
                                   (size (DataFrame <$> signals_data st))])).
  { intros d Hd. destruct (dict_is_empty _); repeat (apply in_or_app; left); exact Hd. }
  destruct (Hj k rows0 E) as [Hne | [[v Hv] | (mn & sn & id & Hkey & Hin)]];
    [split; auto | |].
  - split.
    + right. left. exists v. apply Hout, Hv.
    + intros Hdb. rewrite (Hs Hdb) in Hv. destruct Hv.
  - split.
    + right. right. exists mn, sn, id. split; [exact Hkey|]. apply Hout, Hin.
    + intros Hdb. rewrite (Hs Hdb) in Hin. destruct Hin.
Qed.

(** C9.  Every progress value emitted by a load lies in [0..100], whatever
    the line count is; no progress is emitted when the count is zero or
    could not be taken; and the outcome of the load (the frame table and the
    series map, or the error) and its prints do not depend on the count. *)
Theorem progress_bounded_estimate_irrelevant (ext : string) (db : option Database)
    (line_count : option nat) (reader : Reader) :
  Forall (fun p => (0 <= p <= 100)%Z)
         (progress (LogLoaderThread_run ext db line_count reader)) /\
  (default 0%nat line_count = 0%nat ->
   progress (LogLoaderThread_run ext db line_count reader) = []) /\
  (forall line_count',
      outcome (LogLoaderThread_run ext db line_count' reader) =
      outcome (LogLoaderThread_run ext db line_count reader) /\
      output (LogLoaderThread_run ext db line_count' reader) =
      output (LogLoaderThread_run ext db line_count reader)).
Proof.
  unfold LogLoaderThread_run.
  destruct (negb _); [repeat split; constructor|].
  destruct (open_error reader) as [err|]; [repeat split; constructor|].
  split; [|split].
  - pose proof (run_loop_invariant
                  (fun st => Forall (fun p => (0 <= p <= 100)%Z) (emitted st))
                  db (default 0%nat line_count) (frames reader)) as Hinv.
    destruct (loop _ _ _ (frames reader)) as [[e st] | st];
      [|destruct (read_error reader)]; simpl; apply Hinv;
      try constructor;
      intros st0 msg st' H0 Hb;
      apply loop_body_progress in Hb as [-> | (_ & p & Hp & ->)]; auto;
      apply Forall_app; split; auto.
  - intros Hz.
    pose proof (run_loop_invariant (fun st => emitted st = [])
                  db (default 0%nat line_count) (frames reader)) as Hinv.
    destruct (loop _ _ _ (frames reader)) as [[e st] | st];
      [|destruct (read_error reader)]; simpl; apply Hinv;
      try reflexivity;
      intros st0 msg st' H0 Hb;
      apply loop_body_progress in Hb as [-> | (Hpos & _)]; auto; lia.
  - intros line_count'.
    pose proof (loop_same_store db (default 0%nat line_count')
                  (default 0%nat line_count) (frames reader)
                  {| messages := []; signals_data := ∅; processed_messages := 0;
                     emitted := []; printed := [] |} _
                  (conj eq_refl (conj eq_refl (conj eq_refl eq_refl)))) as H.
    destruct (loop _ (default 0%nat line_count') _ (frames reader)) as [[e1 a] | a],
             (loop _ (default 0%nat line_count) _ (frames reader)) as [[e2 b] | b];
      try contradiction.
    + simpl. destruct H as (-> & _ & _ & _ & ->). split; reflexivity.
    + destruct H as (-> & -> & -> & ->).
      destruct (read_error reader); split; reflexivity.
Qed.

(** ** The loader without a schema *)

Lemma to_uint_nonnil (n : nat) : Nat.to_uint n <> Decimal.Nil.
Proof.
  rewrite <- (Unsigned.of_to n) at 1. rewrite Unsigned.to_of.
  apply DecimalFacts.unorm_nonnil.
Qed.

Lemma format_d_inj (i j : nat) : format_d i = format_d j -> i = j.
Proof.
  unfold format_d. intros H. apply Unsigned.to_uint_inj.
  assert (Hs : Some (Nat.to_uint i) = Some (Nat.to_uint j)).
  { rewrite <- !NilZero.usu by apply to_uint_nonnil. rewrite H. reflexivity. }
  congruence.
Qed.

Lemma raw_key_inj (id : N) (i j : nat) : raw_key id i = raw_key id j -> i = j.
Proof.
  unfold raw_key. intros H.
  repeat apply String.app_inj in H. apply format_d_inj, H.
Qed.

(** A byte index past the end of the payload stops the loop over the
    indices with [IndexError]. *)
Lemma store_bytes_short (msg : CanMsg) (indices : list nat) :
  forall sd, (exists i, In i indices /\ (length (data msg) <= i)%nat) ->
             store_bytes msg indices sd = inl IndexError.
Proof.
  induction indices as [|i rest IH]; intros sd (j & Hin & Hj); [destruct Hin|].
  simpl. destruct (data msg !! i) as [b|] eqn:E; [|reflexivity].
  destruct Hin as [-> | Hin].
  - apply lookup_lt_Some in E. lia.
  - apply IH. eauto.
Qed.

(** When the payload holds an entry for each index, the loop gives every
    index one more row, the byte at that index, and touches no other
    key. *)
Lemma store_bytes_rows (msg : CanMsg) (indices : list nat) :
  forall sd,
    NoDup indices ->
    (forall i, In i indices -> (i < length (data msg))%nat) ->
    exists sd',
      store_bytes msg indices sd = inr sd' /\
      (forall i, In i indices ->
         exists b, data msg !! i = Some b /\
           sd' !! raw_key (arbitration_id msg) i =
           Some (default [] (sd !! raw_key (arbitration_id msg) i)
                 ++ [(timestamp msg, inject_Z (Z.of_N b))])) /\
      (forall k, (forall i, In i indices -> raw_key (arbitration_id msg) i <> k) ->
                 sd' !! k = sd !! k).
Proof.
  induction indices as [|i rest IH]; intros sd Hnd Hlen; simpl.
  - exists sd. split; [reflexivity|]. split; [intros i []|reflexivity].
  - apply NoDup_cons in Hnd as [Hi Hnd].
    destruct (lookup_lt_is_Some_2 (data msg) i (Hlen i (or_introl eq_refl))) as [b Hb].
    rewrite Hb.
    destruct (IH (append_sample (raw_key (arbitration_id msg) i)
                    (timestamp msg, inject_Z (Z.of_N b))
                    (ensure_key (raw_key (arbitration_id msg) i) sd)) Hnd
                (fun j Hj => Hlen j (or_intror Hj)))
      as (sd' & Hrun & Hrows & Hother).
    exists sd'. split; [exact Hrun|]. split.
    + intros j [<- | Hj].
      * exists b. split; [exact Hb|]. rewrite Hother.
        -- rewrite append_sample_lookup, ensure_key_lookup.
           destruct (decide _); [reflexivity | contradiction].
        -- intros j Hj Heq. apply raw_key_inj in Heq. subst j.
           apply Hi, list_elem_of_In, Hj.
      * destruct (Hrows j Hj) as (c & Hc & Hs). exists c. split; [exact Hc|].
        rewrite Hs, append_sample_lookup, ensure_key_lookup.
        destruct (decide _) as [Heq | _]; [|reflexivity].
        apply raw_key_inj in Heq. subst j. exfalso.
        apply Hi, list_elem_of_In, Hj.
    + intros k Hk. rewrite Hother by auto.
      rewrite append_sample_lookup, ensure_key_lookup.
      destruct (decide _) as [Heq | _]; [|reflexivity].
      exfalso. exact (Hk i (or_introl eq_refl) Heq).
Qed.

(** For a frame whose payload holds at least [dlc] bytes, decoding without
    a schema appends exactly one row per index below [dlc], the byte at
    that index, to the series keyed by the identifier and the index. *)
Lemma raw_frame_rows (msg : CanMsg) (total : nat) (st : LoaderState) :
  (dlc msg <= length (data msg))%nat ->
  exists st',
    loop_body None total st msg = inr st' /\
    (forall i, (i < dlc msg)%nat ->
       exists b, data msg !! i = Some b /\
         signals_data st' !! raw_key (arbitration_id msg) i =
         Some (default [] (signals_data st !! raw_key (arbitration_id msg) i)
               ++ [(timestamp msg, inject_Z (Z.of_N b))])) /\
    (forall k, (forall i, (i < dlc msg)%nat -> raw_key (arbitration_id msg) i <> k) ->
               signals_data st' !! k = signals_data st !! k).
Proof.
  intros Hlen.
  destruct (store_bytes_rows msg (seq 0 (dlc msg)) (signals_data st))
    as (sd' & Hrun & Hrows & Hother).
  { apply NoDup_ListNoDup, seq_NoDup. }
  { intros i Hi. apply in_seq in Hi. lia. }
  unfold loop_body. rewrite Hrun. eexists. split; [reflexivity|]. simpl. split.
  - intros i Hi. apply Hrows, in_seq. lia.
  - intros k Hk. apply Hother. intros i Hi. apply Hk. apply in_seq in Hi. lia.
Qed.

(** C6.  A frame that declares more bytes than its payload holds (a remote
    frame: eight declared, none present) makes the load without a schema
    end with [IndexError]: no sample is emitted for the frame and no frame
    table or series map is produced. *)
Theorem raw_decode_aborts_on_short_payload :
  LogLoaderThread_run ".asc" None (Some 1%nat) (reading [remote_frame]) =
  {| progress := []; output := []; outcome := Error IndexError |}.
Proof. reflexivity. Qed.

(** ** The plotting path *)

Lemma valid_signals_In (sd : gmap string Series) (selected : list string) (c : string) :
  In c (valid_signals_of sd selected) <->
  (exists signal, In signal selected /\ clean_signal signal = c) /\ is_Some (sd !! c).
Proof.
  unfold valid_signals_of. rewrite filter_In, in_map_iff, bool_decide_eq_true.
  split; intros [(signal & H1 & H2) H]; (split; [exists signal|]); auto.
Qed.

(** The timestamps that the fallback gathers are those of the selected
    signals' series. *)
Lemma valid_signals_timestamps (sd : gmap string Series) (selected : list string) :
  flat_map (fun signal => List.map fst (default [] (sd !! signal)))
           (valid_signals_of sd selected) =
  all_timestamps sd selected.
Proof.
  unfold valid_signals_of, all_timestamps.
  induction selected as [|s sel IH]; simpl; [reflexivity|].
  destruct (sd !! clean_signal s) as [rows|] eqn:E.
  - rewrite bool_decide_eq_true_2 by eauto. simpl. rewrite E, IH. reflexivity.
  - rewrite bool_decide_eq_false_2 by (intros [x Hx]; discriminate). exact IH.
Qed.

Lemma window_scan_fold (sd : gmap string Series) (s e : Q) (valid : list string) :
  forall acc : bool * list plot_diag,
    fold_left (window_scan sd s e) valid acc =
    (fst acc || existsb (fun c => has_rows (filter_window s e (default [] (sd !! c)))) valid,
     snd acc ++ List.map (scan_print sd s e) valid).
Proof.
  induction valid as [|c valid IH]; intros [b out]; simpl.
  - rewrite orb_false_r, app_nil_r. reflexivity.
  - rewrite IH. simpl. rewrite <- app_assoc. simpl.
    destruct (has_rows _), b; reflexivity.
Qed.

Lemma scan_prints_no_fallback (sd : gmap string Series) (s e : Q) (valid : list string) :
  List.filter is_fallback (List.map (scan_print sd s e) valid) = [].
Proof.
  induction valid as [|c valid IH]; simpl; [reflexivity|].
  unfold scan_print at 1. destruct (has_rows _); simpl; exact IH.
Qed.

(** C10.  With a custom window whose start is not below its end, the slot
    ends with a warning: no preparation thread is started, so no result is
    produced, and the stored frame table and series map are the ones it
    found. *)
Theorem invalid_window_rejected (app : App) (w : Widgets) (update : bool) :
  time_range_combo w = "Custom" ->
  (end_time_spin w <= start_time_spin w)%Q ->
  (exists wn, action (plot_signals app w update) = Warned wn) /\
  snd (prepare app w update) = None /\
  log_data (app_after (plot_signals app w update)) = log_data app /\
  app_signals_data (app_after (plot_signals app w update)) = app_signals_data app.
Proof.
  intros Hc Hle. apply Qle_bool_iff in Hle.
  unfold prepare. simpl snd. unfold plot_signals.
  destruct (log_data app) as [df|] eqn:Hlog; [|simpl; rewrite ?Hlog; eauto 6].
  destruct (signal_list_selected w) as [|s0 sel]; [simpl; rewrite ?Hlog; eauto 6|].
  destruct (valid_signals_of _ _) as [|v0 valid]; [simpl; rewrite ?Hlog; eauto 6|].
  destruct (update && current_tab_is_raw_data w); [simpl; rewrite ?Hlog; eauto 6|].
  rewrite bool_decide_eq_true_2 by exact Hc.
  rewrite Hle. destruct update; simpl; rewrite ?Hlog; eauto 6.
Qed.

(** Whatever the request, the slot prints the fallback at most once. *)
Lemma fallback_printed_at_most_once (app : App) (w : Widgets) (update : bool) :
  (length (List.filter is_fallback (plot_output (plot_signals app w update))) <= 1)%nat.
Proof.
  unfold plot_signals.
  destruct (log_data app); [|simpl; lia].
  destruct (signal_list_selected w) as [|s0 sel] eqn:Hsel; [simpl; lia|].
  rewrite <- Hsel.
  destruct (valid_signals_of _ _) as [|v0 valid] eqn:Hv;
    [destruct (missing_signals_of _ _); simpl; lia|].
  rewrite <- Hv.
  destruct (update && current_tab_is_raw_data w);
    [destruct (missing_signals_of _ _); simpl; lia|].
  destruct (bool_decide _); [|destruct (missing_signals_of _ _); simpl; lia].
  destruct (Qle_bool _ _); [destruct (missing_signals_of _ _); simpl; lia|].
  rewrite window_scan_fold. simpl fst; simpl snd.
  destruct (false || _); [|destruct (flat_map _ _)]; simpl plot_output;
    rewrite !List.filter_app, scan_prints_no_fallback;
    destruct (missing_signals_of _ _); simpl; lia.
Qed.

(** C3 (as amended).  When the request reaches the window check (a log is
    loaded, the tab to update is not the raw data tab), the custom window
    has its start below its end, no selected signal has a row in it, some
    selected signal has a row at all and no stored key carries the display
    prefix, then the slot prints the fallback once and starts the thread
    with the window from the least to the greatest timestamp of the
    selected signals' series; the thread filters with that window, without
    a substitution of its own, and finishes with a non-empty result that
    holds every selected signal that has rows, with all of its rows. *)
Theorem custom_window_falls_back_once (app : App) (w : Widgets) (update : bool) :
  is_Some (log_data app) ->
  update && current_tab_is_raw_data w = false ->
  time_range_combo w = "Custom" ->
  (start_time_spin w < end_time_spin w)%Q ->
  (forall k, is_Some (app_signals_data app !! k) -> clean_signal k = k) ->
  (forall signal rows,
      In signal (signal_list_selected w) ->
      app_signals_data app !! clean_signal signal = Some rows ->
      filter_window (start_time_spin w) (end_time_spin w) rows = []) ->
  (exists signal rows,
      In signal (signal_list_selected w) /\
      app_signals_data app !! clean_signal signal = Some rows /\ rows <> []) ->
  exists thread lo hi pd,
    action (plot_signals app w update) = Started thread /\
    time_range thread = Some (lo, hi) /\
    In lo (all_timestamps (app_signals_data app) (signal_list_selected w)) /\
    In hi (all_timestamps (app_signals_data app) (signal_list_selected w)) /\
    (forall t, In t (all_timestamps (app_signals_data app) (signal_list_selected w)) ->
               (lo <= t)%Q /\ (t <= hi)%Q) /\
    length (List.filter is_fallback (plot_output (plot_signals app w update))) = 1%nat /\
    effective_window thread = inr (lo, hi) /\
    PlotterThread_run thread = PlotFinished pd /\
    pd <> ∅ /\
    (forall signal rows,
        In signal (signal_list_selected w) ->
        app_signals_data app !! clean_signal signal = Some rows ->
        rows <> [] ->
        exists e, pd !! clean_signal signal = Some e /\
                  timestamps e = List.map fst rows).
Proof.
  intros [df Hlog] Hraw Hc Hlt Hclean Hzero (sg & rows0 & Hsg & Hrows0 & Hne0).
  set (sd := app_signals_data app) in *.
  set (sel := signal_list_selected w) in *.
  assert (Hvalid : In (clean_signal sg) (valid_signals_of sd sel)).
  { apply valid_signals_In. split; [exists sg; auto | rewrite Hrows0; eauto]. }
  assert (Hall : all_timestamps sd sel <> []).
  { intros Hnil. apply Hne0. eapply all_timestamps_nil; eassumption. }
  destruct (all_timestamps sd sel) as [|t0 ts] eqn:Hts; [congruence|].
  assert (Hscan : existsb (fun c => has_rows (filter_window (start_time_spin w)
                     (end_time_spin w) (default [] (sd !! c))))
                    (valid_signals_of sd sel) = false).
  { apply not_true_is_false. intros H. apply existsb_exists in H as (c & Hin & Hc').
    apply valid_signals_In in Hin as [(signal & Hin & <-) [rows Hrows]].
    rewrite Hrows in Hc'. simpl in Hc'.
    rewrite (Hzero signal rows Hin Hrows) in Hc'. discriminate. }
  assert (Hnle : Qle_bool (end_time_spin w) (start_time_spin w) = false).
  { apply not_true_is_false. intros H. apply Qle_bool_iff in H.
    exact (Qlt_not_le _ _ Hlt H). }
  unfold plot_signals. rewrite Hlog. fold sel. fold sd.
  destruct sel as [|s0 sel'] eqn:Hsel; [destruct Hsg|]. rewrite <- Hsel in *.
  destruct (valid_signals_of sd sel) as [|v0 valid'] eqn:Hv; [destruct Hvalid|].
  rewrite <- Hv in *. rewrite Hraw.
  rewrite bool_decide_eq_true_2 by exact Hc.
  rewrite Hnle.
  assert (Happ : app_signals_data
                   (if update then app
                    else {| log_data := Some df; app_signals_data := sd;
                            plot_tabs := plot_tabs app ++ [tab_title sel] |}) = sd)
    by (destruct update; reflexivity).
  rewrite Happ, window_scan_fold, Hscan. simpl fst; simpl snd. simpl orb. cbv iota.
  rewrite valid_signals_timestamps, Hts.
  set (lo := min_from t0 ts). set (hi := max_from t0 ts).
  assert (Hcover : forall signal rows,
             In signal sel -> sd !! clean_signal signal = Some rows ->
             filter_window lo hi rows = rows).
  { intros signal rows Hin Hrows. apply filter_window_all. intros row Hrow.
    apply min_max_bounds. rewrite <- Hts. eapply all_timestamps_In; eassumption. }
  set (thread := {| pt_signals_data := sd;
                    selected_signals := valid_signals_of sd sel;
                    time_range := Some (lo, hi);
                    normalize := normalize_check w;
                    plot_styles := build_styles w |}).
  assert (Hpresent : forall signal rows,
             In signal sel -> sd !! clean_signal signal = Some rows -> rows <> [] ->
             exists e, fold_left (plot_step thread lo hi) (valid_signals_of sd sel) ∅
                         !! clean_signal signal = Some e /\
                       timestamps e = List.map fst rows).
  { intros signal rows Hin Hrows Hne.
    assert (Hcc : clean_signal (clean_signal signal) = clean_signal signal)
      by (apply Hclean; rewrite Hrows; eauto).
    assert (Hp : is_Some (fold_left (plot_step thread lo hi) (valid_signals_of sd sel) ∅
                            !! clean_signal (clean_signal signal))).
    { apply (plot_loop_present thread lo hi _ ∅ (clean_signal signal) rows).
      - apply valid_signals_In. split; [exists signal; auto | rewrite Hrows; eauto].
      - rewrite Hcc. exact Hrows.
      - rewrite (Hcover signal rows Hin Hrows). exact Hne. }
    rewrite Hcc in Hp. destruct Hp as [e He]. exists e. split; [exact He|].
    apply plot_loop_lookup in He as [He | (c & Hc' & Hk & rows' & Hrows' & _ & ->)].
    - rewrite lookup_empty in He. discriminate.
    - simpl in Hrows'. rewrite Hk, Hrows in Hrows'. injection Hrows' as <-.
      simpl. rewrite (Hcover signal rows Hin Hrows). reflexivity. }
  exists thread, lo, hi,
    (fold_left (plot_step thread lo hi) (valid_signals_of sd sel) ∅).
  assert (Hpd : fold_left (plot_step thread lo hi) (valid_signals_of sd sel) ∅ <> ∅).
  { destruct (Hpresent sg rows0 Hsg Hrows0 Hne0) as (e & He & _).
    intros Hempty. rewrite Hempty, lookup_empty in He. discriminate. }
  split; [reflexivity|]. split; [reflexivity|].
  split; [apply min_from_In|]. split; [apply max_from_In|].
  split; [intros t Ht; apply min_max_bounds, Ht|].
  split.
  { simpl plot_output. rewrite !List.filter_app, scan_prints_no_fallback.
    destruct (missing_signals_of sd sel); reflexivity. }
  split; [reflexivity|].
  split.
  { unfold PlotterThread_run. apply dict_is_empty_false in Hpd.
    change (effective_window thread) with (@inr exn (Q * Q) (lo, hi)). cbv iota beta.
    change (selected_signals thread) with (valid_signals_of sd sel).
    rewrite Hpd. reflexivity. }
  split; [exact Hpd | exact Hpresent].
Qed.

(** ** The theorems at sample inputs *)



(** C2, at a load of a frame of the message [Engine]: the series of
    [Engine.Mode] has no row, and the print "Non-numeric value" was made
    for the key. *)
Lemma stored_series_nonempty_witness :
  outcome (LogLoaderThread_run ".asc" (Some sample_db) (Some 2%nat)
             (reading [frame 0 256 [7%N] 1])) =
    Finished [msg_data (frame 0 256 [7%N] 1)]
             (<["Engine.RPM" := [(0, inject_Z 7)%Q]]> (<["Engine.Mode" := []]> ∅)) /\
  exists v,
    In (PNonNumeric "Engine.Mode" v)
       (output (LogLoaderThread_run ".asc" (Some sample_db) (Some 2%nat)
                  (reading [frame 0 256 [7%N] 1]))).
Proof.
  split; [reflexivity|].
  destruct (stored_series_nonempty_or_diagnosed ".asc" (Some sample_db) (Some 2%nat)
              (reading [frame 0 256 [7%N] 1]) _ _ eq_refl
              "Engine.Mode" [] eq_refl) as [[H | [H | H]] _].
  - congruence.
  - exact H.
  - exfalso. destruct H as (mn & sn & id & _ & Hin).
    vm_compute in Hin. intuition discriminate.
Defined.

(** C2 as stated fails: the only value decoded for [Engine.Mode] does not
    convert, and the key is in the finished map with an empty series. *)
Lemma empty_series_is_stored :
  exists df sd,
    outcome (LogLoaderThread_run ".asc" (Some sample_db) None
               (reading [frame 0 256 [7%N] 1])) =
    Finished df sd /\
    sd !! "Engine.Mode" = Some [].
Proof. eexists. eexists. split; reflexivity. Qed.



(** The load of a frame of the message [Trip]: the conversion of
    [Odometer] raises [OverflowError], which only the handler of the frame
    catches.  [Speed], decoded before it, is stored; the key of [Odometer]
    is in the finished map with an empty series and without a "Non-numeric
    value" print; [Fuel], decoded after it, is absent. *)
Example overflow_abandons_frame :
  LogLoaderThread_run ".asc" (Some sample_db) None (reading [frame 0 1280 [9%N] 1]) =
  {| progress := [];
     output := [PProcessing 1280 0 1 [9%N];
                PDecoded "Trip" 1280
                  [("Speed", PyInt 9); ("Odometer", PyInt (2 ^ 1024)); ("Fuel", PyInt 3)];
                PStored "Trip.Speed" (inject_Z 9) 0;
                PDecodingFailed "Trip" 1280 overflow_text;
                PProcessed 1 2];
     outcome := Finished [msg_data (frame 0 1280 [9%N] 1)]
                  (<["Trip.Speed" := [(0, inject_Z 9)%Q]]>
                     (<["Trip.Odometer" := []]> ∅)) |}.
Proof. reflexivity. Qed.

(** A reader that raises after its second frame: the load ends with the
    error of the reader, and the frames decoded before it are lost with
    it. *)
Example reader_error_ends_load :
  LogLoaderThread_run ".asc" None (Some 4%nat) sample_broken_reader =
  {| progress := [25; 50]%Z; output := [];
     outcome := Error (ReaderError "invalid literal for int()") |}.
Proof. reflexivity. Qed.

(** The constant series [5, 5, 5] is left as it is. *)
Example constant_series_unchanged :
  normalized true [5; 5; 5]%Q = [5; 5; 5]%Q.
Proof. reflexivity. Qed.

(** C4, at the entry of [Engine.RPM] in the sample preparation: the rows
    at 1 and 2 are kept, their values 7 and 9 are rescaled. *)
Lemma normalize_rescales_witness :
  normalize sample_thread = true /\
  PlotterThread_run sample_thread = PlotFinished sample_plot_data /\
  sample_plot_data !! "Engine.RPM" = Some sample_entry /\
  exists rows s t vals lo hi,
    effective_window sample_thread = inr (s, t) /\
    pt_signals_data sample_thread !! "Engine.RPM" = Some rows /\
    vals = List.map snd (filter_window s t rows) /\
    In lo vals /\ In hi vals /\
    (forall v, In v vals -> (lo <= v)%Q /\ (v <= hi)%Q) /\
    ((exists a b, In a vals /\ In b vals /\ ~ (a == b)%Q) ->
     values sample_entry = List.map (fun v => ((v - lo) / (hi - lo))%Q) vals) /\
    ((forall a b, In a vals -> In b vals -> (a == b)%Q) -> values sample_entry = vals).
Proof.
  split; [reflexivity|]. split; [vm_compute; reflexivity|].
  split; [vm_compute; reflexivity|].
  apply (normalize_rescales_or_keeps sample_thread sample_plot_data "Engine.RPM"
           sample_entry); vm_compute; reflexivity.
Defined.


(** C5, at the sample preparation: [Speed.KPH] has no row in the window
    and [Door.Open] has no series, both are left out, the other two are
    returned. *)
Example empty_signal_skipped_example :
  sample_plot_data !! "Speed.KPH" = None /\
  sample_plot_data !! "Door.Open" = None /\
  timestamps <$> sample_plot_data !! "Engine.RPM" = Some [1; 2]%Q /\
  timestamps <$> sample_plot_data !! "Cabin.Temp" = Some [1; 2]%Q /\
  values <$> sample_plot_data !! "Cabin.Temp" = Some [5; 5]%Q.
Proof. vm_compute. repeat split. Qed.

Lemma sample_store_keys_clean (k : string) :
  is_Some (sample_store !! k) -> clean_signal k = k.
Proof.
  unfold sample_store. intros [rows H].
  repeat (apply lookup_insert_Some in H as [[<- _] | [_ H]]; [reflexivity|]).
  rewrite lookup_empty in H. discriminate.
Qed.

(** C3, at the custom window [10, 20] over series with rows at 0, 1, 2 and
    at 30: the thread is started with the window [0, 30] and returns both
    series whole. *)
Lemma custom_window_falls_back_witness :
  (10 < 20)%Q /\
  exists thread pd,
    action (plot_signals sample_app (sample_widgets 10 20) false) = Started thread /\
    time_range thread = Some (0, 30)%Q /\
    PlotterThread_run thread = PlotFinished pd /\
    timestamps <$> pd !! "Engine.RPM" = Some [0; 1; 2]%Q /\
    timestamps <$> pd !! "Speed.KPH" = Some [30]%Q.
Proof.
  split; [reflexivity|].
  destruct (custom_window_falls_back_once sample_app (sample_widgets 10 20) false)
    as (thread & lo & hi & pd & Hact & _ & _ & _ & _ & _ & _ & Hrun & _ & _).
  - eexists. reflexivity.
  - reflexivity.
  - reflexivity.
  - reflexivity.
  - apply sample_store_keys_clean.
  - intros signal rows [<- | [<- | []]]; vm_compute; intros [= <-]; reflexivity.
  - exists "Speed.KPH", [(30, 1)%Q]. split; [right; left; reflexivity|].
    split; [reflexivity | discriminate].
  - exists thread, pd. split; [exact Hact|].
    vm_compute in Hact. injection Hact as <-.
    vm_compute in Hrun. injection Hrun as <-.
    repeat split.
Defined.

(** C3 as stated fails: the custom window [10, 10] holds no row of any
    selected signal, and the slot ends with the warning that the start must
    be below the end instead of substituting the full range. *)
Lemma degenerate_window_not_substituted :
  (forall signal rows,
      In signal (signal_list_selected (sample_widgets 10 10)) ->
      app_signals_data sample_app !! clean_signal signal = Some rows ->
      filter_window 10 10 rows = []) /\
  action (plot_signals sample_app (sample_widgets 10 10) false) =
    Warned WarnStartNotBeforeEnd /\
  plot_output (plot_signals sample_app (sample_widgets 10 10) false) = [] /\
  snd (prepare sample_app (sample_widgets 10 10) false) = None.
Proof.
  split; [|repeat split].
  intros signal rows [<- | [<- | []]]; vm_compute; intros [= <-]; reflexivity.
Qed.

(** C10, at the custom window [20, 10]. *)
Lemma invalid_window_rejected_witness :
  time_range_combo (sample_widgets 20 10) = "Custom" /\
  (end_time_spin (sample_widgets 20 10) <= start_time_spin (sample_widgets 20 10))%Q /\
  action (plot_signals sample_app (sample_widgets 20 10) true) =
    Warned WarnStartNotBeforeEnd /\
  snd (prepare sample_app (sample_widgets 20 10) true) = None /\
  app_signals_data (app_after (plot_signals sample_app (sample_widgets 20 10) true)) =
    sample_store.
Proof.
  split; [reflexivity|]. split; [discriminate|].
  destruct (invalid_window_rejected sample_app (sample_widgets 20 10) true)
    as ([wn Hw] & Hnone & _ & Hsd); [reflexivity | discriminate |].
  split; [reflexivity|]. split; [exact Hnone | exact Hsd].
Defined.

(** * Further properties of the loader *)

Lemma supported_dec (ext : string) :
  negb (bool_decide (ext = ".asc") || bool_decide (ext = ".blf")
        || bool_decide (ext = ".csv")) = false <-> supported ext.
Proof.
  unfold supported. rewrite negb_false_iff, !orb_true_iff, !bool_decide_eq_true.
  tauto.
Qed.

Lemma loop_body_schema (db : Database) (total : nat) (st : LoaderState) (msg : CanMsg) :
  exists st',
    loop_body (Some db) total st msg = inr st' /\
    messages st' = messages st ++ [msg_data msg] /\
    processed_messages st' = S (processed_messages st) /\
    signals_data st' = fst (decode_with_db db msg (signals_data st) (printed st)).
Proof.
  unfold loop_body.
  destruct (decode_with_db db msg (signals_data st) (printed st)) as [sd out].
  eexists. repeat split.
Qed.

Lemma loop_body_record (db : option Database) (total : nat)
    (st st' : LoaderState) (msg : CanMsg) :
  loop_body db total st msg = inr st' ->
  messages st' = messages st ++ [msg_data msg] /\
  processed_messages st' = S (processed_messages st).
Proof.
  unfold loop_body.
  destruct (match db with Some d => _ | None => _ end) as [e | [sd out]];
    [discriminate|].
  intros [= <-]. split; reflexivity.
Qed.

(** The frames recorded and counted by the loop. *)
Lemma loop_records (db : option Database) (total : nat) (reader : list CanMsg) :
  forall st st',
    loop db total st reader = inr st' ->
    messages st' = messages st ++ List.map msg_data reader /\
    processed_messages st' = (processed_messages st + length reader)%nat.
Proof.
  induction reader as [|msg rest IH]; intros st st'; simpl.
  - intros [= <-]. rewrite app_nil_r. split; [reflexivity | lia].
  - destruct (loop_body db total st msg) as [e | st1] eqn:E; [discriminate|].
    intros H. apply IH in H as [Hm Hp].
    apply loop_body_record in E as [Em Ep].
    rewrite Hm, Hp, Em, Ep, <- app_assoc. split; [reflexivity | lia].
Qed.

Lemma loop_schema_total (db : Database) (total : nat) (reader : list CanMsg) :
  forall st, exists st', loop (Some db) total st reader = inr st'.
Proof.
  induction reader as [|msg rest IH]; intros st; simpl; [eauto|].
  destruct (loop_body_schema db total st msg) as (st1 & -> & _). apply IH.
Qed.

(** The loop without a schema ends normally exactly when every frame holds
    the bytes it declares. *)
Lemma loop_body_raw_ok (total : nat) (st : LoaderState) (msg : CanMsg) :
  (exists st', loop_body None total st msg = inr st') <-> payload_covers_dlc msg.
Proof.
  unfold payload_covers_dlc. split.
  - intros [st' H].
    destruct (le_lt_dec (dlc msg) (length (data msg))) as [Hle | Hlt]; [exact Hle|].
    unfold loop_body in H.
    rewrite (store_bytes_short msg (seq 0 (dlc msg)) (signals_data st)) in H;
      [discriminate|].
    exists (length (data msg)). split; [apply in_seq; lia | lia].
  - intros H. destruct (raw_frame_rows msg total st H) as (st' & Hst & _). eauto.
Qed.

Lemma loop_body_raw_error (total : nat) (st : LoaderState) (msg : CanMsg) (e : exn) :
  loop_body None total st msg = inl e -> e = IndexError /\ ~ payload_covers_dlc msg.
Proof.
  intros H. split.
  - unfold loop_body in H.
    destruct (store_bytes msg (seq 0 (dlc msg)) (signals_data st)) as [e' | sd] eqn:E;
      [|discriminate].
    injection H as <-. clear -E. revert E.
    generalize (signals_data st) as sd, (seq 0 (dlc msg)) as idx.
    intros sd idx. revert sd. induction idx as [|i rest IH]; intros sd; simpl.
    + discriminate.
    + destruct (data msg !! i); [apply IH | congruence].
  - intros Hc. apply (loop_body_raw_ok total st msg) in Hc as [st' Hst]. congruence.
Qed.

Lemma loop_raw_ok (total : nat) (reader : list CanMsg) :
  forall st,
    (exists st', loop None total st reader = inr st') <->
    Forall payload_covers_dlc reader.
Proof.
  induction reader as [|msg rest IH]; intros st; simpl.
  - split; [constructor | eauto].
  - destruct (loop_body None total st msg) as [e | st1] eqn:E.
    + split; [intros [st' H]; discriminate|].
      intros H. apply Forall_cons in H as [H _].
      apply loop_body_raw_error in E as [_ E]. contradiction.
    + rewrite IH. split.
      * intros H. constructor; [|exact H]. apply (loop_body_raw_ok total st msg). eauto.
      * intros H. apply Forall_cons in H as [_ H]. exact H.
Qed.

Lemma loop_raw_error (total : nat) (reader : list CanMsg) :
  forall st e st', loop None total st reader = inl (e, st') -> e = IndexError.
Proof.
  induction reader as [|msg rest IH]; intros st e st'; simpl; [discriminate|].
  destruct (loop_body None total st msg) as [e1 | st1] eqn:E.
  - intros [= <- <-]. apply loop_body_raw_error in E as [E _]. exact E.
  - apply IH.
Qed.

Lemma DataFrame_fmap (sd : gmap string Series) : DataFrame <$> sd = sd.
Proof. apply map_fmap_id. Qed.

Lemma run_supported (ext : string) (db : option Database) (line_count : option nat)
    (reader : Reader) :
  supported ext ->
  LogLoaderThread_run ext db line_count reader =
  match open_error reader with
  | Some err => {| progress := []; output := []; outcome := Error (ReaderError err) |}
  | None =>
      match loop db (default 0%nat line_count)
              {| messages := []; signals_data := ∅; processed_messages := 0;
                 emitted := []; printed := [] |} (frames reader) with
      | inl (e, st) =>
          {| progress := emitted st; output := printed st; outcome := Error e |}
      | inr st =>
          match read_error reader with
          | Some err =>
              {| progress := emitted st; output := printed st;
                 outcome := Error (ReaderError err) |}
          | None =>
              {| progress := emitted st;
                 output :=
                   (if dict_is_empty (DataFrame <$> signals_data st)
                    then (printed st ++ [PProcessed (processed_messages st)
                                                    (size (DataFrame <$> signals_data st))])
                         ++ [PWarnNoSignals]
                    else printed st ++ [PProcessed (processed_messages st)
                                                   (size (DataFrame <$> signals_data st))]);
                 outcome := Finished (messages st) (DataFrame <$> signals_data st) |}
          end
      end
  end.
Proof.
  intros H. apply supported_dec in H. unfold LogLoaderThread_run. rewrite H.
  reflexivity.
Qed.

(** What a finished load was: the extension has a reader, the reader
    raised neither when it was constructed nor while it was iterated, and
    the loop over its frames ran to the end. *)
Lemma run_finished (ext : string) (db : option Database) (line_count : option nat)
    (reader : Reader) (df : list MsgData) (sd : gmap string Series) :
  outcome (LogLoaderThread_run ext db line_count reader) = Finished df sd ->
  supported ext /\ open_error reader = None /\ read_error reader = None /\
  exists st,
    loop db (default 0%nat line_count)
      {| messages := []; signals_data := ∅; processed_messages := 0;
         emitted := []; printed := [] |} (frames reader) = inr st /\
    df = messages st /\ sd = signals_data st /\
    progress (LogLoaderThread_run ext db line_count reader) = emitted st /\
    output (LogLoaderThread_run ext db line_count reader) =
      (if dict_is_empty (signals_data st)
       then (printed st ++ [PProcessed (processed_messages st) (size (signals_data st))])
            ++ [PWarnNoSignals]
       else printed st ++ [PProcessed (processed_messages st) (size (signals_data st))]).
Proof.
  destruct (negb (bool_decide (ext = ".asc") || bool_decide (ext = ".blf")
                  || bool_decide (ext = ".csv"))) eqn:E.
  { unfold LogLoaderThread_run. rewrite E. discriminate. }
  apply supported_dec in E. rewrite (run_supported _ _ _ _ E).
  destruct (open_error reader); [discriminate|].
  destruct (loop _ _ _ (frames reader)) as [[e st] | st]; [discriminate|].
  destruct (read_error reader); [discriminate|].
  simpl. rewrite DataFrame_fmap. intros [= <- <-].
  split; [exact E|]. split; [reflexivity|]. split; [reflexivity|].
  exists st. repeat (split; [reflexivity|]). reflexivity.
Qed.


(** X2.  When a load finishes, with or without a schema, the frame table
    has one row per frame read, in the order read, also for the frames that
    gave no sample; the count printed at the end is the number of frames. *)
Theorem finished_frame_table (ext : string) (db : option Database)
    (line_count : option nat) (reader : Reader)
    (df : list MsgData) (sd : gmap string Series) :
  outcome (LogLoaderThread_run ext db line_count reader) = Finished df sd ->
  df = List.map msg_data (frames reader) /\
  In (PProcessed (length (frames reader)) (size sd))
     (output (LogLoaderThread_run ext db line_count reader)).
Proof.
  intros Hrun.
  apply run_finished in Hrun as (_ & _ & _ & st & Hst & -> & -> & _ & ->).
  apply loop_records in Hst as [Hm Hp]. simpl in *.
  split; [exact Hm|]. rewrite Hp.
  destruct (dict_is_empty _); [apply in_or_app; left|];
    apply in_or_app; right; left; reflexivity.
Qed.

(** X3.  Without a schema, a load of a supported format finishes exactly
    when the reader does not raise and every frame holds the bytes it
    declares.  It ends with [IndexError] exactly when the reader could be
    constructed and some frame it yields declares more bytes than it
    holds, and with the error of the reader exactly when the constructor
    raised, or the reader raised after frames that all hold the bytes
    they declare.  No frame table and no series come out of such a
    load. *)
Theorem raw_load_finishes_iff (ext : string) (line_count : option nat)
    (reader : Reader) :
  supported ext ->
  ((exists sd, outcome (LogLoaderThread_run ext None line_count reader) =
               Finished (List.map msg_data (frames reader)) sd) <->
   open_error reader = None /\ read_error reader = None /\
   Forall payload_covers_dlc (frames reader)) /\
  (outcome (LogLoaderThread_run ext None line_count reader) = Error IndexError <->
   open_error reader = None /\
   Exists (fun msg => (length (data msg) < dlc msg)%nat) (frames reader)) /\
  (forall err,
      outcome (LogLoaderThread_run ext None line_count reader) =
        Error (ReaderError err) <->
      open_error reader = Some err \/
      (open_error reader = None /\ read_error reader = Some err /\
       Forall payload_covers_dlc (frames reader))).
Proof.
  intros H. rewrite (run_supported _ _ _ _ H).
  destruct (open_error reader) as [err0|].
  { simpl. split; [|split].
    - split; [intros [sd Hsd]; discriminate | intros [Ho _]; discriminate].
    - split; [discriminate | intros [Ho _]; discriminate].
    - intros err. split.
      + intros [= <-]. auto.
      + intros [[= ->] | [Ho _]]; [reflexivity | discriminate]. }
  pose proof (loop_raw_ok (default 0%nat line_count) (frames reader)
                {| messages := []; signals_data := ∅; processed_messages := 0;
                   emitted := []; printed := [] |}) as Hok.
  destruct (loop None _ _ (frames reader)) as [[e st] | st] eqn:Hst.
  - apply loop_raw_error in Hst as ->.
    assert (Hno : ~ Forall payload_covers_dlc (frames reader)).
    { intros Hall. apply Hok in Hall as [st' Hst']. discriminate. }
    simpl. split; [|split].
    + split; [intros [sd Hsd]; discriminate | intros (_ & _ & Hall); contradiction].
    + split; [|reflexivity]. intros _. split; [reflexivity|].
      apply not_Forall_Exists in Hno.
      * eapply List.Exists_impl; [|exact Hno]. unfold payload_covers_dlc.
        intros msg Hmsg. simpl in Hmsg. lia.
      * intros msg. unfold payload_covers_dlc. apply le_dec.
    + intros err. split; [discriminate|].
      intros [Ho | (_ & _ & Hall)]; [discriminate | contradiction].
  - assert (Hall : Forall payload_covers_dlc (frames reader)) by (apply Hok; eauto).
    assert (Hnone : ~ Exists (fun msg => (length (data msg) < dlc msg)%nat)
                      (frames reader)).
    { intros Hex. apply Exists_exists in Hex as (msg & Hin & Hlt).
      rewrite Forall_forall in Hall. specialize (Hall msg).
      unfold payload_covers_dlc in Hall. specialize (Hall Hin). lia. }
    apply loop_records in Hst as [Hm _]. simpl in Hm.
    destruct (read_error reader) as [err1|]; simpl.
    + split; [|split].
      * split; [intros [sd Hsd]; discriminate | intros (_ & Hr & _); discriminate].
      * split; [discriminate | intros [_ Hex]; contradiction].
      * intros err. split.
        -- intros [= <-]. auto.
        -- intros [Ho | (_ & [= ->] & _)]; [discriminate | reflexivity].
    + rewrite Hm. split; [|split].
      * split; [auto | eauto].
      * split; [discriminate | intros [_ Hex]; contradiction].
      * intros err. split; [discriminate|].
        intros [Ho | (_ & Hr & _)]; discriminate.
Qed.

(** X4.  A load ends with the error "Unsupported file format" exactly when
    the extension is none of [.asc], [.blf] and [.csv]; it then emits no
    progress and prints nothing. *)
Theorem unsupported_format_iff (ext : string) (db : option Database)
    (line_count : option nat) (reader : Reader) :
  (outcome (LogLoaderThread_run ext db line_count reader) =
     Error (ValueError "Unsupported file format") <-> ~ supported ext) /\
  (~ supported ext ->
   progress (LogLoaderThread_run ext db line_count reader) = [] /\
   output (LogLoaderThread_run ext db line_count reader) = []).
Proof.
  destruct (negb (bool_decide (ext = ".asc") || bool_decide (ext = ".blf")
                  || bool_decide (ext = ".csv"))) eqn:E.
  - assert (Hn : ~ supported ext).
    { intros Hs. apply supported_dec in Hs. congruence. }
    unfold LogLoaderThread_run. rewrite E. simpl. tauto.
  - assert (Hs : supported ext) by (apply supported_dec, E).
    split; [|contradiction]. split; [|contradiction].
    rewrite (run_supported _ _ _ _ Hs).
    destruct (open_error reader); [discriminate|].
    destruct db as [db|].
    + destruct (loop_schema_total db (default 0%nat line_count) (frames reader)
                  {| messages := []; signals_data := ∅; processed_messages := 0;
                     emitted := []; printed := [] |}) as [st ->].
      destruct (read_error reader); discriminate.
    + destruct (loop None _ _ (frames reader)) as [[e st] | st] eqn:Hst.
      * apply loop_raw_error in Hst as ->. discriminate.
      * destruct (read_error reader); discriminate.
Qed.

(** ** What the finished series map holds *)

Lemma decode_with_db_series_eq (db : Database) (msg : CanMsg)
    (sd : gmap string Series) (out : list diag) (k : string) :
  default [] (fst (decode_with_db db msg sd out) !! k) =
  default [] (sd !! k) ++ frame_samples db k msg.
Proof.
  unfold frame_samples.
  destruct (get_message_by_frame_id db (arbitration_id msg)) as [message|] eqn:Hm.
  - destruct (decode message (data msg)) as [err | decoded] eqn:Hd.
    + rewrite (decode_with_db_failed db msg message err sd out Hm Hd).
      simpl. rewrite app_nil_r. reflexivity.
    + rewrite (decode_with_db_decoded db msg message decoded sd out Hm Hd).
      cbv zeta. simpl fst. rewrite store_loop_series. reflexivity.
  - unfold decode_with_db. rewrite Hm. simpl. rewrite app_nil_r. reflexivity.
Qed.


Lemma loop_schema_series (db : Database) (total : nat) (reader : list CanMsg) (k : string) :
  forall st st',
    loop (Some db) total st reader = inr st' ->
    default [] (signals_data st' !! k) =
    default [] (signals_data st !! k) ++ flat_map (frame_samples db k) reader.
Proof.
  induction reader as [|msg rest IH]; intros st st'; simpl.
  - intros [= <-]. rewrite app_nil_r. reflexivity.
  - destruct (loop_body_schema db total st msg) as (st1 & -> & _ & _ & Hsd).
    intros H. rewrite (IH _ _ H), Hsd, decode_with_db_series_eq, <- app_assoc.
    reflexivity.
Qed.



Lemma store_bytes_step_lookup (msg : CanMsg) (i : nat) (b : N)
    (sd : gmap string Series) (k : string) :
  default [] (append_sample (raw_key (arbitration_id msg) i)
                (timestamp msg, inject_Z (Z.of_N b))
                (ensure_key (raw_key (arbitration_id msg) i) sd) !! k) =
  default [] (sd !! k) ++
  (if decide (raw_key (arbitration_id msg) i = k)
   then [(timestamp msg, inject_Z (Z.of_N b))] else []).
Proof.
  rewrite append_sample_lookup, ensure_key_lookup.
  destruct (decide _); simpl; [reflexivity | rewrite app_nil_r; reflexivity].
Qed.

Lemma store_bytes_origin (msg : CanMsg) (indices : list nat) :
  forall sd sd' : gmap string Series,
    store_bytes msg indices sd = inr sd' ->
    forall k row,
      In row (default [] (sd' !! k)) ->
      In row (default [] (sd !! k)) \/
      exists i b, In i indices /\ data msg !! i = Some b /\
                  k = raw_key (arbitration_id msg) i /\
                  row = (timestamp msg, inject_Z (Z.of_N b)).
Proof.
  induction indices as [|i rest IH]; intros sd sd'; simpl.
  - intros [= <-]. auto.
  - destruct (data msg !! i) as [b|] eqn:Hb; [|discriminate].
    intros H k row Hrow.
    destruct (IH _ _ H k row Hrow) as [Hold | (j & c & Hj & Hc & Hk & Hr)].
    + rewrite store_bytes_step_lookup in Hold.
      apply in_app_or in Hold as [Hold | Hnew]; [auto|].
      destruct (decide _) as [Hk | _]; [|destruct Hnew].
      destruct Hnew as [<- | []]. right. exists i, b. auto.
    + right. exists j, c. auto.
Qed.

Lemma store_bytes_grows (msg : CanMsg) (indices : list nat) :
  forall sd sd' : gmap string Series,
    store_bytes msg indices sd = inr sd' ->
    forall k row, In row (default [] (sd !! k)) -> In row (default [] (sd' !! k)).
Proof.
  induction indices as [|i rest IH]; intros sd sd'; simpl.
  - intros [= <-]. auto.
  - destruct (data msg !! i) as [b|]; [|discriminate].
    intros H k row Hrow. apply (IH _ _ H).
    rewrite store_bytes_step_lookup. apply in_or_app. auto.
Qed.

Lemma store_bytes_adds (msg : CanMsg) (indices : list nat) :
  forall sd sd' : gmap string Series,
    store_bytes msg indices sd = inr sd' ->
    forall i, In i indices ->
      exists b, data msg !! i = Some b /\
                In (timestamp msg, inject_Z (Z.of_N b))
                   (default [] (sd' !! raw_key (arbitration_id msg) i)).
Proof.
  induction indices as [|j rest IH]; intros sd sd'; simpl.
  - intros _ i [].
  - destruct (data msg !! j) as [b|] eqn:Hb; [|discriminate].
    intros H i [<- | Hi]; [|eapply IH; eassumption].
    exists b. split; [exact Hb|]. apply (store_bytes_grows _ _ _ _ H).
    rewrite store_bytes_step_lookup. apply in_or_app. right.
    destruct (decide _); [left; reflexivity | contradiction].
Qed.

Lemma loop_body_raw_inv (total : nat) (st st' : LoaderState) (msg : CanMsg) :
  loop_body None total st msg = inr st' ->
  store_bytes msg (seq 0 (dlc msg)) (signals_data st) = inr (signals_data st').
Proof.
  unfold loop_body.
  destruct (store_bytes msg (seq 0 (dlc msg)) (signals_data st)); [discriminate|].
  intros [= <-]. reflexivity.
Qed.

Lemma loop_raw_rows (total : nat) (reader : list CanMsg) :
  forall st st',
    loop None total st reader = inr st' ->
    (forall k row, In row (default [] (signals_data st !! k)) ->
                   In row (default [] (signals_data st' !! k))) /\
    (forall msg i, In msg reader -> (i < dlc msg)%nat ->
       exists b, data msg !! i = Some b /\
                 In (timestamp msg, inject_Z (Z.of_N b))
                    (default [] (signals_data st' !! raw_key (arbitration_id msg) i))) /\
    (forall k row, In row (default [] (signals_data st' !! k)) ->
       In row (default [] (signals_data st !! k)) \/
       exists msg i b, In msg reader /\ (i < dlc msg)%nat /\
                       data msg !! i = Some b /\
                       k = raw_key (arbitration_id msg) i /\
                       row = (timestamp msg, inject_Z (Z.of_N b))).
Proof.
  induction reader as [|msg rest IH]; intros st st'; simpl.
  - intros [= <-]. split; [auto|]. split; [intros msg i []|auto].
  - destruct (loop_body None total st msg) as [e | st1] eqn:E; [discriminate|].
    apply loop_body_raw_inv in E. intros H.
    destruct (IH _ _ H) as (Hgrow & Hadds & Horigin). split; [|split].
    + intros k row Hrow. apply Hgrow. eapply store_bytes_grows; eassumption.
    + intros m i [<- | Hm] Hi; [|auto].
      destruct (store_bytes_adds _ _ _ _ E i) as (b & Hb & Hin);
        [apply in_seq; lia|].
      exists b. split; [exact Hb | apply Hgrow, Hin].
    + intros k row Hrow.
      destruct (Horigin k row Hrow) as [Hold | (m & i & b & Hm & Hi & Hb & Hk & Hr)].
      * destruct (store_bytes_origin _ _ _ _ E k row Hold)
          as [Hold' | (i & b & Hi & Hb & Hk & Hr)]; [auto|].
        right. exists msg, i, b. apply in_seq in Hi.
        repeat split; auto; lia.
      * right. exists m, i, b. auto 10.
Qed.

(** X6.  After a finished load without a schema, the series map holds
    exactly the declared bytes of the frames: for every frame and every
    index below its declared length the byte at that index is a row of the
    series keyed by the frame's identifier and the index, at the frame's
    timestamp, and every row of every series is such a byte. *)
Theorem raw_series_are_the_declared_bytes (ext : string) (line_count : option nat)
    (reader : Reader) (df : list MsgData) (sd : gmap string Series) :
  outcome (LogLoaderThread_run ext None line_count reader) = Finished df sd ->
  (forall msg i, In msg (frames reader) -> (i < dlc msg)%nat ->
     exists b rows,
       data msg !! i = Some b /\
       sd !! raw_key (arbitration_id msg) i = Some rows /\
       In (timestamp msg, inject_Z (Z.of_N b)) rows) /\
  (forall k rows row, sd !! k = Some rows -> In row rows ->
     exists msg i b,
       In msg (frames reader) /\ (i < dlc msg)%nat /\ data msg !! i = Some b /\
       k = raw_key (arbitration_id msg) i /\
       row = (timestamp msg, inject_Z (Z.of_N b))).
Proof.
  intros Hrun.
  apply run_finished in Hrun as (_ & _ & _ & st & Hst & _ & -> & _).
  destruct (loop_raw_rows _ _ _ _ Hst) as (_ & Hadds & Horigin). split.
  - intros msg i Hm Hi. destruct (Hadds msg i Hm Hi) as (b & Hb & Hin).
    destruct (signals_data st !! raw_key (arbitration_id msg) i) as [rows|];
      [|destruct Hin].
    exists b, rows. auto.
  - intros k rows row Hk Hrow.
    destruct (Horigin k row) as [Hold | H]; [rewrite Hk; exact Hrow | | exact H].
    simpl in Hold. rewrite lookup_empty in Hold. destruct Hold.
Qed.

(** X7.  After a finished load, with or without a schema, the timestamp of
    every stored sample is the timestamp of a frame that was read. *)
Theorem sample_timestamps_are_frame_timestamps (ext : string) (db : option Database)
    (line_count : option nat) (reader : Reader)
    (df : list MsgData) (sd : gmap string Series) :
  outcome (LogLoaderThread_run ext db line_count reader) = Finished df sd ->
  forall k rows row, sd !! k = Some rows -> In row rows ->
    exists msg, In msg (frames reader) /\ fst row = timestamp msg.
Proof.
  intros Hrun.
  apply run_finished in Hrun as (_ & _ & _ & st & Hst & _ & -> & _).
  intros k rows row Hk Hrow.
  destruct db as [db|].
  - pose proof (loop_schema_series _ _ _ k _ _ Hst) as Hs.
    rewrite Hk in Hs. simpl in Hs. rewrite lookup_empty in Hs. simpl in Hs.
    rewrite Hs in Hrow.
    apply in_flat_map in Hrow as (msg & Hm & Hrow). exists msg. split; [exact Hm|].
    unfold frame_samples in Hrow.
    destruct (get_message_by_frame_id db (arbitration_id msg)); [|destruct Hrow].
    destruct (decode _ _); [destruct Hrow|].
    apply samples_from_In in Hrow as (n & v & _ & _ & Hts & _). exact Hts.
  - destruct (loop_raw_rows _ _ _ _ Hst) as (_ & _ & Horigin).
    destruct (Horigin k row) as [Hold | (msg & i & b & Hm & _ & _ & _ & ->)].
    + rewrite Hk. exact Hrow.
    + simpl in Hold. rewrite lookup_empty in Hold. destruct Hold.
    + exists msg. auto.
Qed.

(** ** The progress values of a load *)

(** With the quotient taken exactly, the progress value is an integer
    quotient. *)
Lemma progress_value_div (processed total : nat) :
  progress_value processed total =
  Z.min 100 (Z.of_nat processed * 100 / Z.of_nat total).
Proof.
  unfold progress_value. f_equal.
  set (x := (inject_Z (Z.of_nat processed) / inject_Z (Z.of_nat total) * 100)%Q).
  assert (Hx : (0 <= x)%Q).
  { unfold x. apply Qmult_le_0_compat; [|discriminate].
    unfold Qdiv. apply Qmult_le_0_compat; [|apply Qinv_le_0_compat];
      unfold Qle; simpl; lia. }
  unfold py_int. apply Qle_bool_iff in Hx as Hb. rewrite Hb.
  rewrite Zdiv_Qdiv. apply Qfloor_comp. unfold x.
  rewrite inject_Z_mult. unfold Qdiv.
  change (inject_Z 100) with 100%Q. ring.
Qed.

Lemma progress_value_mono (p q total : nat) :
  (p <= q)%nat -> (progress_value p total <= progress_value q total)%Z.
Proof.
  intros H. rewrite !progress_value_div.
  apply Z.min_le_compat_l.
  destruct total as [|t]; [simpl; rewrite !Z.div_0_r; lia|].
  apply Z.div_le_mono; lia.
Qed.

Lemma progress_value_full (p total : nat) :
  (0 < total)%nat -> (total <= p)%nat -> progress_value p total = 100%Z.
Proof.
  intros Ht H. rewrite progress_value_div. apply Z.min_l.
  apply Z.div_le_lower_bound; lia.
Qed.

Lemma progress_value_partial (p total : nat) :
  (p < total)%nat -> (progress_value p total < 100)%Z.
Proof.
  intros H. rewrite progress_value_div. apply Z.min_lt_iff. right.
  apply Z.div_lt_upper_bound; lia.
Qed.

Lemma loop_progress (db : option Database) (total : nat) (reader : list CanMsg) :
  forall st st',
    loop db total st reader = inr st' ->
    emitted st' =
    emitted st ++
    (if (0 <? total)%nat
     then List.map (fun p => progress_value p total)
                   (seq (S (processed_messages st)) (length reader))
     else []).
Proof.
  induction reader as [|msg rest IH]; intros st st'; simpl.
  - intros [= <-]. destruct (0 <? total)%nat; rewrite app_nil_r; reflexivity.
  - destruct (loop_body db total st msg) as [e | st1] eqn:E; [discriminate|].
    intros H. rewrite (IH _ _ H).
    pose proof (loop_body_record _ _ _ _ _ E) as [_ Hp]. rewrite Hp.
    unfold loop_body in E.
    destruct (match db with Some d => _ | None => _ end) as [e | [sd out]];
      [discriminate|].
    injection E as <-. simpl.
    destruct (0 <? total)%nat; [rewrite <- app_assoc|]; reflexivity.
Qed.

(** X8.  In a finished load with a positive line count, one progress value
    is emitted per frame and the values never decrease; when the count is
    not above the number of frames the last value is 100, and when it is
    above, every value stays below 100. *)
Theorem progress_steps (ext : string) (db : option Database) (total : nat)
    (reader : Reader) (df : list MsgData) (sd : gmap string Series) :
  outcome (LogLoaderThread_run ext db (Some total) reader) = Finished df sd ->
  (0 < total)%nat ->
  length (progress (LogLoaderThread_run ext db (Some total) reader)) =
    length (frames reader) /\
  (forall i j p q,
      (i <= j)%nat ->
      progress (LogLoaderThread_run ext db (Some total) reader) !! i = Some p ->
      progress (LogLoaderThread_run ext db (Some total) reader) !! j = Some q ->
      (p <= q)%Z) /\
  (frames reader <> [] -> (total <= length (frames reader))%nat ->
   last (progress (LogLoaderThread_run ext db (Some total) reader)) = Some 100%Z) /\
  ((length (frames reader) < total)%nat ->
   Forall (fun p => (p < 100)%Z)
          (progress (LogLoaderThread_run ext db (Some total) reader))).
Proof.
  intros Hrun Ht.
  apply run_finished in Hrun as (_ & _ & _ & st & Hst & _ & _ & -> & _).
  apply loop_progress in Hst. simpl in Hst.
  apply Nat.ltb_lt in Ht as Hb. rewrite Hb in Hst. rewrite Hst. clear Hst.
  generalize (frames reader) as log. intros log.
  split; [rewrite length_map, length_seq; reflexivity|]. split; [|split].
  - intros i j p q Hij Hi Hj.
    rewrite list_lookup_fmap in Hi, Hj.
    destruct (seq 1 (length log) !! i) as [a|] eqn:Ha; [|discriminate].
    destruct (seq 1 (length log) !! j) as [b|] eqn:Hb'; [|discriminate].
    apply lookup_seq in Ha as [-> _]. apply lookup_seq in Hb' as [-> _].
    simpl in Hi, Hj. injection Hi as <-. injection Hj as <-.
    apply progress_value_mono. lia.
  - intros Hne Hle. destruct log as [|m rest] using rev_ind; [congruence|].
    rewrite length_app. simpl length. rewrite Nat.add_1_r, seq_S, map_app.
    simpl. rewrite last_snoc. f_equal. apply progress_value_full; [exact Ht|].
    rewrite length_app in Hle. simpl in Hle. lia.
  - intros Hlt. apply Forall_forall. intros p Hp.
    apply list_elem_of_In, in_map_iff in Hp as (k & <- & Hk).
    apply in_seq in Hk. apply progress_value_partial. lia.
Qed.

(** * Further properties of the preparation thread *)

Lemma normalized_length (nrm : bool) (vals : list Q) :
  length (normalized nrm vals) = length vals.
Proof.
  unfold normalized. destruct vals as [|v vs]; [reflexivity|].
  destruct nrm; [destruct (Qltb _ _)|]; rewrite ?length_map; reflexivity.
Qed.

Lemma stats_of_bounds (vals : list Q) :
  vals <> [] ->
  exists lo hi mean,
    stats_of vals =
      {| stat_min := Some lo; stat_max := Some hi; stat_mean := Some mean |} /\
    In lo vals /\ In hi vals /\
    (forall v, In v vals -> (lo <= v)%Q /\ (v <= hi)%Q).
Proof.
  intros Hne. destruct vals as [|v vs]; [congruence|].
  exists (min_from v vs), (max_from v vs), (np_mean (v :: vs)).
  split; [reflexivity|]. split; [apply min_from_In|]. split; [apply max_from_In|].
  intros x Hx. apply min_max_bounds, Hx.
Qed.

(** X9.  A finished preparation never returns an empty mapping, and every
    entry of it is well formed: its key is the cleaned name of a selected
    signal that has a stored series; it has at least one value and as many
    timestamps as values; its statistics are all present, and the minimum
    and the maximum are values of the entry that bound every value. *)
Theorem finished_entries_well_formed (self : PlotterThread)
    (pd : gmap string PlotEntry) :
  PlotterThread_run self = PlotFinished pd ->
  pd <> ∅ /\
  forall k e, pd !! k = Some e ->
    (exists signal, In signal (selected_signals self) /\ clean_signal signal = k) /\
    is_Some (pt_signals_data self !! k) /\
    values e <> [] /\
    length (timestamps e) = length (values e) /\
    exists lo hi mean,
      stats e = {| stat_min := Some lo; stat_max := Some hi; stat_mean := Some mean |} /\
      In lo (values e) /\ In hi (values e) /\
      (forall v, In v (values e) -> (lo <= v)%Q /\ (v <= hi)%Q).
Proof.
  intros Hrun. apply run_finished_inv in Hrun as (s & t & Hw & -> & Hne).
  split; [exact Hne|]. intros k e Hk.
  apply plot_loop_lookup in Hk as [Hk | (signal & Hin & <- & rows & Hrows & Hf & ->)].
  { rewrite lookup_empty in Hk. discriminate. }
  assert (Hv : values (plot_entry self signal (filter_window s t rows)) <> []).
  { simpl. intros Hnil. apply (f_equal (@length Q)) in Hnil.
    rewrite normalized_length, length_map in Hnil.
    destruct (filter_window s t rows); [congruence | discriminate]. }
  split; [eauto|]. split; [rewrite Hrows; eauto|]. split; [exact Hv|].
  split; [simpl; rewrite normalized_length, !length_map; reflexivity|].
  apply stats_of_bounds, Hv.
Qed.

(** The rescaled values span the interval from 0 to 1. *)
Lemma normalized_span (v : Q) (vs : list Q) :
  Qltb (min_from v vs) (max_from v vs) = true ->
  (forall x, In x (normalized true (v :: vs)) -> (0 <= x)%Q /\ (x <= 1)%Q) /\
  (exists x, In x (normalized true (v :: vs)) /\ (x == 0)%Q) /\
  (exists x, In x (normalized true (v :: vs)) /\ (x == 1)%Q).
Proof.
  intros Hlt. unfold normalized. rewrite Hlt. apply Qltb_lt in Hlt.
  set (lo := min_from v vs) in *. set (hi := max_from v vs) in *.
  assert (Hpos : (0 < hi - lo)%Q) by lra.
  split; [|split].
  - intros x Hx. apply in_map_iff in Hx as (y & <- & Hy).
    destruct (min_max_bounds v vs y Hy) as [H1 H2]. fold lo in H1. fold hi in H2.
    split.
    + apply Qle_shift_div_l; [exact Hpos | lra].
    + apply Qle_shift_div_r; [exact Hpos | lra].
  - exists ((lo - lo) / (hi - lo))%Q. split.
    + apply in_map_iff. exists lo. split; [reflexivity | apply min_from_In].
    + unfold Qdiv. ring.
  - exists ((hi - lo) / (hi - lo))%Q. split.
    + apply in_map_iff. exists hi. split; [reflexivity | apply max_from_In].
    + apply Qmult_inv_r. lra.
Qed.

(** X10.  With [normalize] set, the values of an entry of a finished
    preparation are either all equal (a constant series, kept as it is) or
    all within 0 and 1, with 0 and 1 both among them. *)
Theorem normalized_entry_constant_or_spans_unit (self : PlotterThread)
    (pd : gmap string PlotEntry) (k : string) (e : PlotEntry) :
  normalize self = true ->
  PlotterThread_run self = PlotFinished pd ->
  pd !! k = Some e ->
  (forall a b, In a (values e) -> In b (values e) -> (a == b)%Q) \/
  ((forall v, In v (values e) -> (0 <= v)%Q /\ (v <= 1)%Q) /\
   (exists v, In v (values e) /\ (v == 0)%Q) /\
   (exists v, In v (values e) /\ (v == 1)%Q)).
Proof.
  intros Hn Hrun Hk.
  apply run_finished_inv in Hrun as (s & t & Hw & -> & _).
  apply plot_loop_lookup in Hk as [Hk | (signal & _ & <- & rows & Hrows & Hf & ->)].
  { rewrite lookup_empty in Hk. discriminate. }
  simpl values. rewrite Hn.
  destruct (List.map snd (filter_window s t rows)) as [|v vs] eqn:Hv.
  { left. intros a b []. }
  destruct (Qltb (min_from v vs) (max_from v vs)) eqn:Hlt.
  - right. apply normalized_span, Hlt.
  - left. unfold normalized. rewrite Hlt. apply Qltb_ge in Hlt.
    intros a b Ha Hb.
    destruct (min_max_bounds v vs a Ha) as [Ha1 Ha2].
    destruct (min_max_bounds v vs b Hb) as [Hb1 Hb2].
    apply Qle_antisym; lra.
Qed.

(** X11.  With the full range (no custom window), a finished preparation
    returns every selected signal that has stored rows, with all of its
    rows: nothing is filtered out. *)
Theorem full_range_keeps_every_row (self : PlotterThread)
    (pd : gmap string PlotEntry) :
  time_range self = None ->
  PlotterThread_run self = PlotFinished pd ->
  forall signal rows,
    In signal (selected_signals self) ->
    pt_signals_data self !! clean_signal signal = Some rows ->
    rows <> [] ->
    exists e,
      pd !! clean_signal signal = Some e /\
      timestamps e = List.map fst rows /\
      values e = normalized (normalize self) (List.map snd rows).
Proof.
  intros Hnone Hrun signal rows Hin Hrows Hne.
  apply run_finished_inv in Hrun as (s & t & Hw & -> & _).
  pose proof (full_range_covers self s t signal rows Hnone Hw Hin Hrows) as Hcov.
  destruct (plot_loop_present self s t (selected_signals self) ∅ signal rows
              Hin Hrows) as [e He]; [rewrite Hcov; exact Hne|].
  exists e. split; [exact He|].
  apply plot_loop_lookup in He as [He | (sg & _ & Hk & rows' & Hrows' & _ & ->)].
  - rewrite lookup_empty in He. discriminate.
  - rewrite Hk, Hrows in Hrows'. injection Hrows' as <-.
    simpl. rewrite Hcov. split; reflexivity.
Qed.

(** X12.  The two errors of the preparation thread are told apart by the
    window: with the full range it can only fail with "No data available
    for selected signals", with a custom window only with "No valid data to
    plot for selected signals". *)
Theorem preparation_error_by_window (self : PlotterThread) (e : exn) :
  PlotterThread_run self = PlotError e ->
  (time_range self = None /\
   e = ValueError "No data available for selected signals") \/
  (is_Some (time_range self) /\
   e = ValueError "No valid data to plot for selected signals").
Proof.
  unfold PlotterThread_run.
  destruct (effective_window self) as [e' | [s t]] eqn:Hw.
  - intros [= <-]. left. unfold effective_window in Hw.
    destruct (time_range self); [discriminate|].
    destruct (all_timestamps _ _); [|discriminate].
    injection Hw as <-. auto.
  - destruct (dict_is_empty _) eqn:E; [|discriminate].
    intros [= <-]. destruct (time_range self) as [r|] eqn:Htr; [right; eauto|].
    exfalso. apply dict_is_empty_true in E.
    assert (Hall : all_timestamps (pt_signals_data self) (selected_signals self) <> []).
    { unfold effective_window in Hw. rewrite Htr in Hw.
      destruct (all_timestamps _ _); [discriminate | discriminate]. }
    apply Hall, all_timestamps_nil. intros signal rows Hin Hrows.
    destruct rows as [|row rows]; [reflexivity|]. exfalso.
    destruct (plot_loop_present self s t (selected_signals self) ∅ signal
                (row :: rows) Hin Hrows) as [x Hx].
    + rewrite (full_range_covers self s t signal (row :: rows) Htr Hw Hin Hrows).
      discriminate.
    + rewrite E, lookup_empty in Hx. discriminate.
Qed.

(** X13.  Without normalisation the entry gives back the stored rows of the
    window unchanged: pairing its timestamps with its values yields exactly
    the filtered rows of the stored series. *)
Theorem raw_entry_zips_back (self : PlotterThread)
    (pd : gmap string PlotEntry) (k : string) (e : PlotEntry) :
  normalize self = false ->
  PlotterThread_run self = PlotFinished pd ->
  pd !! k = Some e ->
  exists rows s t,
    effective_window self = inr (s, t) /\
    pt_signals_data self !! k = Some rows /\
    combine (timestamps e) (values e) = filter_window s t rows.
Proof.
  intros Hn Hrun Hk.
  apply run_finished_inv in Hrun as (s & t & Hw & -> & _).
  apply plot_loop_lookup in Hk as [Hk | (signal & _ & <- & rows & Hrows & Hf & ->)].
  { rewrite lookup_empty in Hk. discriminate. }
  exists rows, s, t. split; [exact Hw|]. split; [exact Hrows|].
  simpl. rewrite Hn, normalized_off.
  generalize (filter_window s t rows) as l.
  induction l as [|[a b] l IH]; simpl; [reflexivity | rewrite IH; reflexivity].
Qed.

(** * Further properties of the plotting path *)

(** What the slot hands to the thread it starts. *)
Lemma plot_signals_started (app : App) (w : Widgets) (update : bool)
    (thread : PlotterThread) :
  action (plot_signals app w update) = Started thread ->
  is_Some (log_data app) /\
  update && current_tab_is_raw_data w = false /\
  valid_signals_of (app_signals_data app) (signal_list_selected w) <> [] /\
  pt_signals_data thread = app_signals_data app /\
  selected_signals thread =
    valid_signals_of (app_signals_data app) (signal_list_selected w) /\
  normalize thread = normalize_check w /\
  plot_styles thread = build_styles w /\
  (time_range_combo w <> "Custom" -> time_range thread = None).
Proof.
  unfold plot_signals.
  destruct (log_data app) as [df|] eqn:Hlog; [|discriminate].
  destruct (signal_list_selected w) as [|s0 sel] eqn:Hsel; [discriminate|].
  rewrite <- Hsel.
  destruct (valid_signals_of _ _) as [|v0 valid] eqn:Hv; [discriminate|].
  rewrite <- Hv.
  destruct (update && current_tab_is_raw_data w) eqn:Hraw; [discriminate|].
  assert (Happ : app_signals_data
                   (if update then app
                    else {| log_data := Some df;
                            app_signals_data := app_signals_data app;
                            plot_tabs := plot_tabs app
                                         ++ [tab_title (signal_list_selected w)] |})
                 = app_signals_data app)
    by (destruct update; reflexivity).
  rewrite Happ.
  assert (Hne : valid_signals_of (app_signals_data app) (signal_list_selected w) <> [])
    by (rewrite Hv; discriminate).
  destruct (bool_decide (time_range_combo w = "Custom")) eqn:Hc.
  - apply bool_decide_eq_true in Hc.
    destruct (Qle_bool _ _); [discriminate|].
    destruct (fold_left _ _ _) as [[|] out].
    + simpl. intros [= <-]. simpl. repeat split; eauto; contradiction.
    + destruct (flat_map _ _); [discriminate|].
      simpl. intros [= <-]. simpl. repeat split; eauto; contradiction.
  - simpl. intros [= <-]. simpl. repeat split; eauto.
Qed.

(** X14.  The slot never changes the stored frame table or series map.  It
    opens a new tab exactly when it is not an update, a log is loaded and
    some selected signal has a stored series, before the window is
    looked at: a request that is then turned down for its window leaves the
    new tab behind. *)
Theorem plot_signals_keeps_store (app : App) (w : Widgets) (update : bool) :
  log_data (app_after (plot_signals app w update)) = log_data app /\
  app_signals_data (app_after (plot_signals app w update)) = app_signals_data app /\
  (update = false -> is_Some (log_data app) ->
   valid_signals_of (app_signals_data app) (signal_list_selected w) <> [] ->
   plot_tabs (app_after (plot_signals app w update)) =
   plot_tabs app ++ [tab_title (signal_list_selected w)]) /\
  (update = true \/ log_data app = None \/
   valid_signals_of (app_signals_data app) (signal_list_selected w) = [] ->
   plot_tabs (app_after (plot_signals app w update)) = plot_tabs app).
Proof.
  unfold plot_signals.
  destruct (log_data app) as [df|] eqn:Hlog.
  2:{ simpl. rewrite Hlog. repeat split; auto. intros _ [x Hx]. discriminate. }
  destruct (signal_list_selected w) as [|s0 sel] eqn:Hsel.
  { simpl. rewrite Hlog. repeat split; auto. intros _ _ H. exfalso. apply H.
    reflexivity. }
  rewrite <- Hsel.
  destruct (valid_signals_of _ _) as [|v0 valid] eqn:Hv.
  { simpl. rewrite Hlog. repeat split; auto. intros _ _ H. congruence. }
  rewrite <- Hv.
  destruct (update && current_tab_is_raw_data w) eqn:Hraw.
  { simpl. rewrite Hlog. apply andb_true_iff in Hraw as [-> _].
    repeat split; auto. discriminate. }
  destruct (bool_decide _);
    [destruct (Qle_bool _ _);
     [|destruct (fold_left _ _ _) as [[|] out]; [|destruct (flat_map _ _)]]|];
    destruct update; simpl; rewrite ?Hlog; repeat split; auto;
    try discriminate; try (intros [H | [H | H]]; congruence).
Qed.

(** X15.  When the custom window has its start below its end and holds a
    row of some selected signal, the slot starts the thread with exactly
    that window and prints no fallback. *)
Theorem custom_window_with_data_is_kept (app : App) (w : Widgets) (update : bool) :
  is_Some (log_data app) ->
  update && current_tab_is_raw_data w = false ->
  time_range_combo w = "Custom" ->
  (start_time_spin w < end_time_spin w)%Q ->
  (exists signal rows,
      In signal (signal_list_selected w) /\
      app_signals_data app !! clean_signal signal = Some rows /\
      filter_window (start_time_spin w) (end_time_spin w) rows <> []) ->
  exists thread,
    action (plot_signals app w update) = Started thread /\
    time_range thread = Some (start_time_spin w, end_time_spin w) /\
    pt_signals_data thread = app_signals_data app /\
    selected_signals thread =
      valid_signals_of (app_signals_data app) (signal_list_selected w) /\
    List.filter is_fallback (plot_output (plot_signals app w update)) = [].
Proof.
  intros [df Hlog] Hraw Hc Hlt (sg & rows0 & Hsg & Hrows0 & Hne0).
  set (sd := app_signals_data app) in *.
  set (sel := signal_list_selected w) in *.
  assert (Hvalid : In (clean_signal sg) (valid_signals_of sd sel)).
  { apply valid_signals_In. split; [exists sg; auto | rewrite Hrows0; eauto]. }
  assert (Hscan : existsb (fun c => has_rows (filter_window (start_time_spin w)
                     (end_time_spin w) (default [] (sd !! c))))
                    (valid_signals_of sd sel) = true).
  { apply existsb_exists. exists (clean_signal sg). split; [exact Hvalid|].
    rewrite Hrows0. simpl.
    destruct (filter_window _ _ rows0); [congruence | reflexivity]. }
  assert (Hnle : Qle_bool (end_time_spin w) (start_time_spin w) = false).
  { apply not_true_is_false. intros H. apply Qle_bool_iff in H.
    exact (Qlt_not_le _ _ Hlt H). }
  unfold plot_signals. rewrite Hlog. fold sel. fold sd.
  destruct sel as [|s0 sel'] eqn:Hsel; [destruct Hsg|]. rewrite <- Hsel in *.
  destruct (valid_signals_of sd sel) as [|v0 valid'] eqn:Hv; [destruct Hvalid|].
  rewrite <- Hv in *. rewrite Hraw.
  rewrite bool_decide_eq_true_2 by exact Hc.
  rewrite Hnle.
  assert (Happ : app_signals_data
                   (if update then app
                    else {| log_data := Some df; app_signals_data := sd;
                            plot_tabs := plot_tabs app ++ [tab_title sel] |}) = sd)
    by (destruct update; reflexivity).
  rewrite Happ, window_scan_fold, Hscan. simpl fst; simpl snd. simpl orb. cbv iota.
  eexists. split; [reflexivity|]. simpl. repeat split.
  rewrite List.filter_app, scan_prints_no_fallback.
  destruct (missing_signals_of sd sel); reflexivity.
Qed.

(** ** The styles handed to the thread *)

Lemma imap_pair_snd (g : nat -> nat) (l : list string) :
  List.map snd (imap (fun i s => (g i, s)) l) = l.
Proof.
  revert g. induction l as [|x l IH]; intros g; [reflexivity|].
  simpl. f_equal. apply (IH (fun i => g (S i))).
Qed.

Lemma styles_fold_lookup (w : Widgets) (items : list (nat * string)) :
  forall (acc : gmap string Style) (s : string),
    let styles :=
      fold_left (fun styles '(i, s) =>
                   <[s := {| color := default "" (color_cycle w !!
                                         (i mod length (color_cycle w))%nat);
                             linestyle := linestyle_combo w;
                             marker := marker_combo w |}]> styles) items acc in
    (styles !! s = None <-> acc !! s = None /\ ~ In s (List.map snd items)) /\
    (forall st, styles !! s = Some st ->
                acc !! s = Some st \/
                (linestyle st = linestyle_combo w /\ marker st = marker_combo w)).
Proof.
  induction items as [|[i x] items IH]; intros acc s; cbv zeta.
  - simpl. split; [tauto | auto].
  - simpl fold_left. simpl List.map.
    destruct (IH (<[x := {| color := default "" (color_cycle w !!
                                       (i mod length (color_cycle w))%nat);
                           linestyle := linestyle_combo w;
                           marker := marker_combo w |}]> acc) s) as [IH1 IH2].
    cbv zeta in IH1, IH2. split.
    + rewrite IH1. destruct (decide (x = s)) as [-> | Hne].
      * rewrite lookup_insert_eq. split; [intros [H _]; discriminate|].
        intros [_ H]. exfalso. apply H. left. reflexivity.
      * rewrite lookup_insert_ne by exact Hne. simpl. tauto.
    + intros st Hst. destruct (IH2 st Hst) as [H | H]; [|auto].
      destruct (decide (x = s)) as [-> | Hne].
      * rewrite lookup_insert_eq in H. injection H as <-. right. split; reflexivity.
      * rewrite lookup_insert_ne in H by exact Hne. auto.
Qed.

Lemma build_styles_lookup (w : Widgets) (s : string) :
  (build_styles w !! s = None <-> ~ In s (signal_list_selected w)) /\
  (forall st, build_styles w !! s = Some st ->
              linestyle st = linestyle_combo w /\ marker st = marker_combo w).
Proof.
  unfold build_styles.
  destruct (styles_fold_lookup w
              (imap (fun i s => (i, s)) (signal_list_selected w)) ∅ s) as [H1 H2].
  cbv zeta in H1, H2. split.
  - rewrite H1, (imap_pair_snd (fun i => i)), lookup_empty. tauto.
  - intros st Hst. destruct (H2 st Hst) as [H | H]; [|exact H].
    rewrite lookup_empty in H. discriminate.
Qed.

(** X16.  The thread looks a style up under the cleaned name, while the
    styles are stored under the names as selected.  So, when no stored key
    carries the display prefix, an entry whose key is itself among the
    selected names is drawn with the line style and marker chosen in the
    window, and an entry whose key is not (a signal selected only through
    its prefixed item) gets the default style: blue, solid, round marker. *)
Theorem prefixed_selection_gets_default_style (app : App) (w : Widgets)
    (update : bool) (thread : PlotterThread)
    (pd : gmap string PlotEntry) (k : string) (e : PlotEntry) :
  (forall c, is_Some (app_signals_data app !! c) -> clean_signal c = c) ->
  action (plot_signals app w update) = Started thread ->
  PlotterThread_run thread = PlotFinished pd ->
  pd !! k = Some e ->
  (In k (signal_list_selected w) ->
   linestyle (style e) = linestyle_combo w /\ marker (style e) = marker_combo w) /\
  (~ In k (signal_list_selected w) -> style e = default_style).
Proof.
  intros Hclean Hact Hrun Hk.
  apply plot_signals_started in Hact as (_ & _ & _ & Hsd & Hsel & _ & Hst & _).
  apply run_finished_inv in Hrun as (s & t & Hw & -> & _).
  apply plot_loop_lookup in Hk as [Hk | (c & Hin & <- & rows & Hrows & Hf & ->)].
  { rewrite lookup_empty in Hk. discriminate. }
  rewrite Hsel in Hin. apply valid_signals_In in Hin as [_ Hstored].
  rewrite (Hclean c Hstored). simpl style. rewrite Hst.
  destruct (build_styles_lookup w c) as [Hnone Hsome]. split.
  - intros Hc. destruct (build_styles w !! c) as [st|] eqn:E.
    + simpl. apply Hsome. reflexivity.
    + exfalso. apply Hnone; [reflexivity | exact Hc].
  - intros Hc. apply Hnone in Hc. rewrite Hc. reflexivity.
Qed.

(** X17.  With "Full log" chosen (any choice other than "Custom"), a log
    loaded, a target tab other than the raw data tab, some selected signal
    stored and no stored key carrying the display prefix, the slot starts
    the thread without a window; the thread then returns every selected
    signal that has rows, with all of its rows, and fails with "No data
    available for selected signals" when no selected signal has a row. *)
Theorem full_log_request_returns_all (app : App) (w : Widgets) (update : bool) :
  is_Some (log_data app) ->
  update && current_tab_is_raw_data w = false ->
  time_range_combo w <> "Custom" ->
  (forall c, is_Some (app_signals_data app !! c) -> clean_signal c = c) ->
  valid_signals_of (app_signals_data app) (signal_list_selected w) <> [] ->
  exists thread,
    action (plot_signals app w update) = Started thread /\
    time_range thread = None /\
    ((exists signal rows,
         In signal (signal_list_selected w) /\
         app_signals_data app !! clean_signal signal = Some rows /\ rows <> []) ->
     exists pd,
       PlotterThread_run thread = PlotFinished pd /\
       forall signal rows,
         In signal (signal_list_selected w) ->
         app_signals_data app !! clean_signal signal = Some rows ->
         rows <> [] ->
         exists e, pd !! clean_signal signal = Some e /\
                   timestamps e = List.map fst rows) /\
    ((forall signal rows,
         In signal (signal_list_selected w) ->
         app_signals_data app !! clean_signal signal = Some rows -> rows = []) ->
     PlotterThread_run thread =
     PlotError (ValueError "No data available for selected signals")).
Proof.
  intros [df Hlog] Hraw Hc Hclean Hvalid.
  set (sd := app_signals_data app) in *.
  set (sel := signal_list_selected w) in *.
  assert (Hstart : exists thread, action (plot_signals app w update) = Started thread).
  { unfold plot_signals. rewrite Hlog. fold sel. fold sd.
    destruct sel as [|s0 sel'] eqn:Hsel; [exfalso; apply Hvalid; reflexivity|].
    rewrite <- Hsel in *.
    destruct (valid_signals_of sd sel) as [|v0 valid'] eqn:Hv; [congruence|].
    rewrite Hraw. rewrite bool_decide_eq_false_2 by exact Hc. simpl. eauto. }
  destruct Hstart as [thread Hact]. exists thread. split; [exact Hact|].
  apply plot_signals_started in Hact as (_ & _ & _ & Hsd & Hsel & _ & _ & Htr).
  specialize (Htr Hc). fold sd in Hsd. fold sd sel in Hsel.
  split; [exact Htr|].
  assert (Hlift : forall signal rows,
             In signal sel -> sd !! clean_signal signal = Some rows ->
             In (clean_signal signal) (selected_signals thread) /\
             pt_signals_data thread !! clean_signal (clean_signal signal) = Some rows).
  { intros signal rows Hin Hrows. rewrite Hsel, Hsd. split.
    - apply valid_signals_In. split; [exists signal; auto | rewrite Hrows; eauto].
    - rewrite (Hclean (clean_signal signal)); [exact Hrows | rewrite Hrows; eauto]. }
  split.
  - intros (sg & rows0 & Hsg & Hrows0 & Hne0).
    destruct (PlotterThread_run thread) as [pd | e] eqn:Hrun.
    + exists pd. split; [reflexivity|]. intros signal rows Hin Hrows Hne.
      destruct (Hlift signal rows Hin Hrows) as [Hin' Hrows'].
      apply run_finished_inv in Hrun as (s & t & Hw & -> & _).
      pose proof (full_range_covers thread s t _ rows Htr Hw Hin' Hrows') as Hcov.
      destruct (plot_loop_present thread s t (selected_signals thread) ∅ _ rows
                  Hin' Hrows') as [e He]; [rewrite Hcov; exact Hne|].
      rewrite (Hclean (clean_signal signal)) in He by (rewrite Hrows; eauto).
      exists e. split; [exact He|].
      apply plot_loop_lookup in He as [He | (c & _ & Hk & rows' & Hr' & _ & ->)].
      * rewrite lookup_empty in He. discriminate.
      * rewrite Hk, Hsd, Hrows in Hr'. injection Hr' as <-.
        simpl. rewrite Hcov. reflexivity.
    + exfalso.
      destruct (Hlift sg rows0 Hsg Hrows0) as [Hin' Hrows'].
      pose proof (proj1 (run_error_iff thread) (ex_intro _ e Hrun) _ Hin') as Herr.
      unfold resolves_no_data in Herr.
      rewrite Hrows', Htr in Herr. contradiction.
  - intros Hnone. unfold PlotterThread_run, effective_window. rewrite Htr.
    assert (Hall : all_timestamps (pt_signals_data thread) (selected_signals thread)
                   = []).
    { apply all_timestamps_nil. intros c rows Hin Hrows.
      rewrite Hsel in Hin. apply valid_signals_In in Hin as [(signal & Hin & <-) Hs].
      rewrite Hsd, (Hclean _ Hs) in Hrows. eapply Hnone; eassumption. }
    rewrite Hall. reflexivity.
Qed.

(** * The message list, the signal list and the status line *)

Lemma int16_from_acc (d : Hexadecimal.uint) :
  forall p, int16_from (N.pos p) (string_of_hex_upper d) =
            Some (N.pos (Pos.of_hex_uint_acc d p)).
Proof.
  induction d; intros p; simpl; try reflexivity;
    match goal with
    | IH : forall p, _ |- _ => rewrite <- IH; f_equal; lia
    end.
Qed.

Lemma int16_from_zero (d : Hexadecimal.uint) :
  int16_from 0 (string_of_hex_upper d) = Some (N.of_hex_uint d).
Proof.
  unfold N.of_hex_uint.
  induction d; simpl; try reflexivity; try exact IHd;
    apply (int16_from_acc d _).
Qed.

Lemma int16_format_X (n : N) : int16 (format_X n) = Some n.
Proof.
  unfold format_X. rewrite <- (HexadecimalN.Unsigned.of_to n) at 2.
  destruct (N.to_hex_uint n) eqn:E; try reflexivity;
    unfold int16; rewrite <- int16_from_zero; reflexivity.
Qed.

Lemma hex_upper_no_blank (d : Hexadecimal.uint) :
  has_char " " (string_of_hex_upper d) = false.
Proof. induction d; simpl; auto. Qed.

Lemma format_X_no_blank (n : N) : has_char " " (format_X n) = false.
Proof.
  unfold format_X. destruct (N.to_hex_uint n) eqn:E; try reflexivity;
    rewrite <- E; apply hex_upper_no_blank.
Qed.

Lemma first_word_app (word rest : string) :
  has_char " " word = false ->
  first_word (word ++ String " " rest) = word.
Proof.
  induction word as [|c word IH]; simpl; [reflexivity|].
  intros H. apply orb_false_iff in H as [Hc Hw]. rewrite Hc, IH by exact Hw.
  reflexivity.
Qed.

(** X18.  The identifier that [update_signal_list] reads from an item is
    the one [populate_message_list] wrote into it, with a schema (whatever
    the message is called) and without. *)
Theorem item_identifier_round_trip (frame_id : N) (message_name : string) :
  item_frame_id (message_item frame_id message_name) = Some frame_id /\
  raw_item_arb_id (raw_message_item frame_id) = Some frame_id.
Proof.
  split.
  - unfold item_frame_id, message_item.
    change (first_word ("0x" ++ format_X frame_id ++ " - " ++ message_name)%string)
      with (String "0" (String "x"
              (first_word (format_X frame_id ++ String " " ("- " ++ message_name))%string))).
    rewrite first_word_app by apply format_X_no_blank.
    apply int16_format_X.
  - unfold raw_item_arb_id, raw_message_item. simpl. apply int16_format_X.
Qed.

Lemma prefix_needs_first (old_rest : string) (c : ascii) (text : string) :
  Ascii.eqb c "[" = false ->
  String.prefix (String "[" old_rest) (String c text) = false.
Proof.
  intros H.
  change (String.prefix (String "[" old_rest) (String c text))
    with (if ascii_dec "[" c then String.prefix old_rest text else false).
  destruct (ascii_dec "[" c) as [<- | _]; [discriminate | reflexivity].
Qed.

Lemma clean_signal_plain (key : string) :
  has_char "[" key = false -> clean_signal key = key.
Proof.
  unfold clean_signal, str_replace.
  induction key as [|c key IH]; [reflexivity|].
  intros H. simpl in H. apply orb_false_iff in H as [Hc Hk].
  cbn [replace_from]. rewrite prefix_needs_first by exact Hc.
  rewrite IH by exact Hk. reflexivity.
Qed.

Lemma prefix_of_app (p text : string) : String.prefix p (p ++ text) = true.
Proof.
  induction p as [|c p IH]; [destruct text; reflexivity|].
  change (String.prefix (String c p) (String c p ++ text))
    with (if ascii_dec c c then String.prefix p (p ++ text) else false).
  destruct (ascii_dec c c); [exact IH | contradiction].
Qed.

Lemma replace_from_skip (old new p text : string) :
  replace_from old new (String.length p) (p ++ text) = replace_from old new 0 text.
Proof.
  induction p as [|c p IH]; [reflexivity | exact IH].
Qed.

Lemma clean_signal_prefixed (key : string) :
  has_char "[" key = false -> clean_signal ("[PDU] " ++ key) = key.
Proof.
  intros H. rewrite <- (clean_signal_plain key H) at 2.
  unfold clean_signal, str_replace.
  change ("[PDU] " ++ key)%string with (String "[" ("PDU] " ++ key))%string.
  cbn [replace_from].
  change (String "[" ("PDU] " ++ key))%string with ("[PDU] " ++ key)%string.
  rewrite prefix_of_app.
  apply (replace_from_skip "[PDU] " "" "PDU] " key).
Qed.

(** X19.  For a key that holds no opening bracket, the item that
    [update_signal_list] shows for a signal, with or without the display
    prefix, is cleaned by the plotting path to the very key under which the
    loader stores the signal. *)
Theorem signal_item_cleans_to_key (message : DbMessage) (signal : DbSignal) :
  has_char "[" (schema_key (name message) (sig_name signal)) = false ->
  clean_signal (signal_item message signal) =
  schema_key (name message) (sig_name signal).
Proof.
  intros H. unfold signal_item. destruct (multiplexer_ids signal).
  - apply clean_signal_plain, H.
  - apply clean_signal_prefixed, H.
Qed.

(** ** The signal list without a schema *)

Lemma fold_max_spec (l : list nat) :
  forall a,
    (fold_left Nat.max l a = a \/ In (fold_left Nat.max l a) l) /\
    (a <= fold_left Nat.max l a)%nat /\
    (forall x, In x l -> (x <= fold_left Nat.max l a)%nat).
Proof.
  induction l as [|y l IH]; intros a; simpl.
  - split; [auto|]. split; [lia | intros x []].
  - destruct (IH (Nat.max a y)) as (Hin & Hle & Hall). split; [|split].
    + destruct Hin as [-> | Hin]; [|auto].
      destruct (Nat.max_spec a y) as [[_ ->] | [_ ->]]; auto.
    + lia.
    + intros x [<- | Hx]; [lia | auto].
Qed.

Lemma max_dlc_spec (log_data : list MsgData) (arb_id : N) (n : nat) :
  max_dlc log_data arb_id = Some n ->
  (exists row, In row log_data /\ md_arbitration_id row = arb_id /\ md_dlc row = n) /\
  (forall row, In row log_data -> md_arbitration_id row = arb_id ->
               (md_dlc row <= n)%nat).
Proof.
  unfold max_dlc.
  destruct (List.filter _ log_data) as [|r rs] eqn:Hf; [discriminate|].
  intros [= <-].
  assert (Hmem : forall row, In row (r :: rs) <->
                             In row log_data /\ md_arbitration_id row = arb_id).
  { intros row. rewrite <- Hf, filter_In, N.eqb_eq. reflexivity. }
  destruct (fold_max_spec (List.map md_dlc rs) (md_dlc r)) as (Hmax & Hle & Hall).
  split.
  - destruct Hmax as [Heq | Hmax].
    + exists r. destruct (proj1 (Hmem r) (or_introl eq_refl)). auto.
    + apply in_map_iff in Hmax as (row & Hrow & Hrs).
      exists row. destruct (proj1 (Hmem row) (or_intror Hrs)). auto.
  - intros row Hin Hid.
    destruct (proj2 (Hmem row) (conj Hin Hid)) as [<- | Hrs]; [exact Hle|].
    apply Hall, in_map, Hrs.
Qed.

Lemma max_dlc_some (log_data : list MsgData) (row : MsgData) :
  In row log_data ->
  exists n, max_dlc log_data (md_arbitration_id row) = Some n.
Proof.
  intros Hin. unfold max_dlc.
  destruct (List.filter _ log_data) as [|r rs] eqn:Hf; [|eauto].
  assert (H : In row (List.filter
                        (fun r => (md_arbitration_id r =? md_arbitration_id row)%N)
                        log_data)).
  { apply filter_In. split; [exact Hin | apply N.eqb_refl]. }
  rewrite Hf in H. destruct H.
Qed.

Lemma store_bytes_key_origin (msg : CanMsg) (indices : list nat) :
  forall sd sd' : gmap string Series,
    store_bytes msg indices sd = inr sd' ->
    forall k, is_Some (sd' !! k) ->
      is_Some (sd !! k) \/
      exists i, In i indices /\ k = raw_key (arbitration_id msg) i.
Proof.
  induction indices as [|i rest IH]; intros sd sd'; simpl.
  - intros [= <-]. auto.
  - destruct (data msg !! i) as [b|]; [|discriminate].
    intros H k Hk. destruct (IH _ _ H k Hk) as [Hold | (j & Hj & ->)].
    + rewrite append_sample_lookup, ensure_key_lookup in Hold.
      destruct (decide (raw_key (arbitration_id msg) i = k)) as [<- | _]; [|auto].
      right. exists i. auto.
    + right. exists j. auto.
Qed.

Lemma loop_raw_key_origin (total : nat) (reader : list CanMsg) :
  forall st st',
    loop None total st reader = inr st' ->
    forall k, is_Some (signals_data st' !! k) ->
      is_Some (signals_data st !! k) \/
      exists msg i, In msg reader /\ (i < dlc msg)%nat /\
                    k = raw_key (arbitration_id msg) i.
Proof.
  induction reader as [|msg rest IH]; intros st st'; simpl.
  - intros [= <-]. auto.
  - destruct (loop_body None total st msg) as [e | st1] eqn:E; [discriminate|].
    apply loop_body_raw_inv in E. intros H k Hk.
    destruct (IH _ _ H k Hk) as [Hold | (m & i & Hm & Hi & ->)].
    + destruct (store_bytes_key_origin _ _ _ _ E k Hold) as [Hold' | (i & Hi & ->)];
        [auto|].
      right. exists msg, i. apply in_seq in Hi. repeat split; auto; lia.
    + right. exists m, i. auto.
Qed.

(** X20.  After a finished load without a schema, the signals that
    [update_signal_list] lists for the identifiers of the log are exactly
    the stored series: every listed signal has a stored series with at
    least one row, and every stored key is listed for the identifier of
    some frame. *)
Theorem raw_signal_list_matches_store (ext : string) (line_count : option nat)
    (reader : Reader) (df : list MsgData) (sd : gmap string Series) :
  outcome (LogLoaderThread_run ext None line_count reader) = Finished df sd ->
  (forall arb_id key, In key (raw_signal_items df arb_id) ->
     exists rows, sd !! key = Some rows /\ rows <> []) /\
  (forall key, is_Some (sd !! key) ->
     exists msg, In msg (frames reader) /\
                 In key (raw_signal_items df (arbitration_id msg))).
Proof.
  intros Hrun.
  apply run_finished in Hrun as (_ & _ & _ & st & Hst & -> & -> & _).
  pose proof (loop_records _ _ _ _ _ Hst) as [Hdf _]. simpl in Hdf.
  destruct (loop_raw_rows _ _ _ _ Hst) as (_ & Hadds & _).
  pose proof (loop_raw_key_origin _ _ _ _ Hst) as Hkeys.
  rewrite Hdf. split.
  - intros arb_id key Hkey. unfold raw_signal_items in Hkey.
    destruct (max_dlc _ arb_id) as [n|] eqn:Hmax; [|destruct Hkey].
    apply in_map_iff in Hkey as (i & <- & Hi). apply in_seq in Hi.
    apply max_dlc_spec in Hmax as [(row & Hrow & Hid & Hn) _].
    apply in_map_iff in Hrow as (msg & <- & Hmsg). simpl in Hid, Hn. subst.
    destruct (Hadds msg i Hmsg) as (b & _ & Hin); [lia|].
    destruct (signals_data st !! raw_key (arbitration_id msg) i) as [rows|];
      [|destruct Hin].
    exists rows. split; [reflexivity|]. intros ->. destruct Hin.
  - intros key Hkey.
    destruct (Hkeys key Hkey) as [Hold | (msg & i & Hmsg & Hi & ->)].
    { simpl in Hold. rewrite lookup_empty in Hold. destruct Hold. discriminate. }
    exists msg. split; [exact Hmsg|]. unfold raw_signal_items.
    assert (Hrow : In (msg_data msg) (List.map msg_data (frames reader)))
      by (apply in_map, Hmsg).
    destruct (max_dlc_some _ _ Hrow) as [n Hmax]. simpl in Hmax. rewrite Hmax.
    apply max_dlc_spec in Hmax as [_ Hall].
    specialize (Hall _ Hrow eq_refl). simpl in Hall.
    apply in_map, in_seq. lia.
Qed.

(** ** The status history *)

Lemma history_after_snoc (calls : list (string * string)) (call : string * string) :
  history_after (calls ++ [call]) =
  status_history (update_status (fst call) (snd call) (history_after calls)).
Proof. unfold history_after. rewrite fold_left_app. reflexivity. Qed.

(** X21.  Whatever is reported, the status history holds the last fifty
    messages, each with its clock reading in brackets, oldest first: it
    never grows beyond fifty entries. *)
Theorem status_history_is_last_fifty (calls : list (string * string)) :
  history_after calls =
  List.skipn (length calls - 50)
             (List.map (fun call => ("[" ++ fst call ++ "] " ++ snd call)%string) calls) /\
  (length (history_after calls) <= 50)%nat.
Proof.
  induction calls as [|call calls IH] using rev_ind; [split; [reflexivity | simpl; lia]|].
  destruct IH as [IH Hlen]. rewrite history_after_snoc.
  unfold update_status. cbn [status_history]. rewrite IH.
  set (full := fun call : string * string =>
                 ("[" ++ fst call ++ "] " ++ snd call)%string).
  change ("[" ++ fst call ++ "] " ++ snd call)%string with (full call).
  assert (Hh : length (skipn (length calls - 50) (List.map full calls)) =
               (length calls - (length calls - 50))%nat)
    by (rewrite length_skipn, length_map; reflexivity).
  rewrite (length_app (skipn _ _)), Hh, (length_app calls), map_app. simpl length.
  change (List.map full [call]) with [full call].
  destruct (le_lt_dec 50 (length calls)) as [Hge | Hlt].
  - replace (50 <? length calls - (length calls - 50) + 1)%nat with true
      by (symmetry; apply Nat.ltb_lt; lia).
    replace (length calls + 1 - 50)%nat with (S (length calls - 50)) by lia.
    destruct (skipn (length calls - 50) (List.map full calls)) as [|x l] eqn:E;
      [simpl in Hh; lia|].
    assert (Hs : skipn (S (length calls - 50)) (List.map full calls ++ [full call]) =
                 l ++ [full call]).
    { rewrite skipn_app, length_map.
      replace (S (length calls - 50) - length calls)%nat with 0%nat by lia.
      change (S (length calls - 50)) with (1 + (length calls - 50))%nat.
      rewrite <- skipn_skipn, E. reflexivity. }
    rewrite Hs. split; [reflexivity|].
    simpl in Hh. cbn [skipn app].
    change (skipn 0 (l ++ [full call])) with (l ++ [full call]).
    pose proof (length_app l [full call]) as Hl. simpl in Hl. lia.
  - replace (50 <? length calls - (length calls - 50) + 1)%nat with false
      by (symmetry; apply Nat.ltb_ge; lia).
    replace (length calls - 50)%nat with 0%nat by lia.
    replace (length calls + 1 - 50)%nat with 0%nat by lia.
    change (skipn 0 (List.map full calls)) with (List.map full calls).
    change (skipn 0 (List.map full calls ++ [full call]))
      with (List.map full calls ++ [full call]).
    split; [reflexivity|].
    pose proof (length_app (List.map full calls) [full call]) as Hl.
    pose proof (length_map full calls) as Hm. simpl in Hl. lia.
Qed.

(** ** Normalising twice *)

Lemma min_from_eq_zero (v : Q) (vs : list Q) :
  (forall x, In x (v :: vs) -> (0 <= x)%Q) ->
  (exists x, In x (v :: vs) /\ (x == 0)%Q) ->
  (min_from v vs == 0)%Q.
Proof.
  intros Hlow (x & Hx & Hx0).
  destruct (min_max_bounds v vs x Hx) as [H1 _].
  pose proof (Hlow _ (min_from_In vs v)) as H2. lra.
Qed.

Lemma max_from_eq_one (v : Q) (vs : list Q) :
  (forall x, In x (v :: vs) -> (x <= 1)%Q) ->
  (exists x, In x (v :: vs) /\ (x == 1)%Q) ->
  (max_from v vs == 1)%Q.
Proof.
  intros Hup (x & Hx & Hx1).
  destruct (min_max_bounds v vs x Hx) as [_ H1].
  pose proof (Hup _ (max_from_In vs v)) as H2. lra.
Qed.

(** X22.  Normalising is idempotent up to numeric equality: applied to
    values that are already normalised, the rescaling returns values equal
    to them one by one (a constant sequence is returned as it is both
    times). *)
Theorem normalized_twice (vals : list Q) :
  Forall2 Qeq (normalized true (normalized true vals)) (normalized true vals).
Proof.
  destruct vals as [|v vs]; [constructor|].
  destruct (Qltb (min_from v vs) (max_from v vs)) eqn:Hlt.
  - destruct (normalized_span v vs Hlt) as (Hrange & Hzero & Hone).
    destruct (normalized true (v :: vs)) as [|y ys] eqn:Hout.
    { constructor. }
    assert (Hlo : (min_from y ys == 0)%Q).
    { apply min_from_eq_zero; [intros x Hx; apply Hrange, Hx | exact Hzero]. }
    assert (Hhi : (max_from y ys == 1)%Q).
    { apply max_from_eq_one; [intros x Hx; apply Hrange, Hx | exact Hone]. }
    assert (Hlt' : Qltb (min_from y ys) (max_from y ys) = true)
      by (apply Qltb_lt; lra).
    unfold normalized at 1. rewrite Hlt'.
    clear Hout Hrange Hzero Hone.
    generalize (y :: ys) as l. intros l.
    induction l as [|x l IH]; simpl; constructor; [|exact IH].
    rewrite Hlo, Hhi. field.
  - assert (Hsame : normalized true (v :: vs) = v :: vs)
      by (unfold normalized; rewrite Hlt; reflexivity).
    rewrite !Hsame.
    clear. generalize (v :: vs) as l. intros l.
    induction l; constructor; [reflexivity | assumption].
Qed.

(** ** Frames the schema does not know *)

Lemma loop_unknown_ids (db : Database) (total : nat) (reader : list CanMsg) :
  (forall msg, In msg reader ->
               get_message_by_frame_id db (arbitration_id msg) = None) ->
  forall st st',
    loop (Some db) total st reader = inr st' ->
    signals_data st' = signals_data st /\
    printed st' =
    printed st ++ List.map (fun msg => PNoDbcMessage (arbitration_id msg)) reader.
Proof.
  induction reader as [|msg rest IH]; intros Hnone st st'; simpl.
  - intros [= <-]. rewrite app_nil_r. auto.
  - unfold loop_body at 1. unfold decode_with_db.
    rewrite (Hnone msg (or_introl eq_refl)).
    intros H. apply IH in H as [Hsd Hout]; [|intros m Hm; apply Hnone; right; exact Hm].
    simpl in Hsd, Hout. rewrite Hsd, Hout, <- app_assoc. auto.
Qed.

(** X23.  When a schema is loaded and knows the identifier of none of the
    frames, and the reader does not raise, the load finishes with the whole
    frame table; the series map is empty, "No DBC message found" is printed
    once per frame, in order, and the warning that no signals were decoded
    closes the prints. *)
Theorem unknown_identifiers_give_no_series (ext : string) (db : Database)
    (line_count : option nat) (reader : Reader) :
  supported ext ->
  open_error reader = None ->
  read_error reader = None ->
  (forall msg, In msg (frames reader) ->
               get_message_by_frame_id db (arbitration_id msg) = None) ->
  outcome (LogLoaderThread_run ext (Some db) line_count reader) =
    Finished (List.map msg_data (frames reader)) ∅ /\
  output (LogLoaderThread_run ext (Some db) line_count reader) =
    List.map (fun msg => PNoDbcMessage (arbitration_id msg)) (frames reader)
    ++ [PProcessed (length (frames reader)) 0; PWarnNoSignals].
Proof.
  intros Hs Ho Hr Hnone. rewrite (run_supported _ _ _ _ Hs), Ho, Hr.
  destruct (loop_schema_total db (default 0%nat line_count) (frames reader)
              {| messages := []; signals_data := ∅; processed_messages := 0;
                 emitted := []; printed := [] |}) as [st Hst].
  rewrite Hst.
  destruct (loop_unknown_ids _ _ _ Hnone _ _ Hst) as [Hsd Hout].
  apply loop_records in Hst as [Hm Hp]. simpl in *.
  rewrite Hsd, Hm, Hout, Hp, DataFrame_fmap. split; [reflexivity|].
  replace (dict_is_empty (∅ : gmap string Series)) with true by reflexivity.
  rewrite <- app_assoc. reflexivity.
Qed.

(** * The further properties at sample inputs *)


Lemma finished_frame_table_witness :
  exists df sd,
    outcome (LogLoaderThread_run ".csv" None None (reading sample_raw_log)) =
      Finished df sd /\
    df = List.map msg_data sample_raw_log /\
    In (PProcessed 3 (size sd))
       (output (LogLoaderThread_run ".csv" None None (reading sample_raw_log))).
Proof.
  eexists. eexists. split; [vm_compute; reflexivity|].
  apply (finished_frame_table ".csv" None None (reading sample_raw_log)). reflexivity.
Defined.

Lemma raw_load_finishes_iff_witness :
  supported ".blf" /\
  Forall payload_covers_dlc sample_raw_log /\
  (exists sd,
      outcome (LogLoaderThread_run ".blf" None None (reading sample_raw_log)) =
      Finished (List.map msg_data sample_raw_log) sd) /\
  outcome (LogLoaderThread_run ".blf" None None sample_broken_reader) =
    Error (ReaderError "invalid literal for int()").
Proof.
  assert (Hs : supported ".blf") by (right; left; reflexivity).
  assert (Hall : Forall payload_covers_dlc sample_raw_log).
  { repeat constructor. }
  split; [exact Hs|]. split; [exact Hall|]. split.
  - apply (proj1 (raw_load_finishes_iff ".blf" None (reading sample_raw_log) Hs)).
    split; [reflexivity|]. split; [reflexivity | exact Hall].
  - apply (proj2 (proj2 (raw_load_finishes_iff ".blf" None sample_broken_reader Hs))).
    right. split; [reflexivity|]. split; [reflexivity|]. repeat constructor.
Defined.


Lemma raw_series_witness :
  exists df sd,
    outcome (LogLoaderThread_run ".asc" None None (reading sample_raw_log)) =
      Finished df sd /\
    exists b rows,
      data (frame 0 256 [5; 6]%N 2) !! 1%nat = Some b /\
      sd !! raw_key 256 1 = Some rows /\
      In (0%Q, inject_Z (Z.of_N b)) rows.
Proof.
  eexists. eexists. split; [vm_compute; reflexivity|].
  apply (proj1 (raw_series_are_the_declared_bytes ".asc" None
                  (reading sample_raw_log) _ _ eq_refl)
           (frame 0 256 [5; 6]%N 2) 1%nat); [left; reflexivity | simpl; lia].
Defined.

Lemma sample_timestamps_witness :
  exists df sd,
    outcome (LogLoaderThread_run ".asc" (Some sample_db) None
               (reading sample_schema_log)) =
      Finished df sd /\
    sd !! "Climate.Load" = Some [(3, inject_Z 40)%Q] /\
    exists msg, In msg sample_schema_log /\ fst (3, inject_Z 40)%Q = timestamp msg.
Proof.
  eexists. eexists. split; [vm_compute; reflexivity|].
  split; [reflexivity|].
  apply (sample_timestamps_are_frame_timestamps ".asc" (Some sample_db) None
           (reading sample_schema_log) _ _ eq_refl "Climate.Load"
           [(3, inject_Z 40)%Q]);
    [reflexivity | left; reflexivity].
Defined.

Lemma progress_steps_witness :
  exists df sd,
    outcome (LogLoaderThread_run ".asc" None (Some 2%nat) (reading sample_raw_log)) =
      Finished df sd /\
    (0 < 2)%nat /\
    progress (LogLoaderThread_run ".asc" None (Some 2%nat) (reading sample_raw_log)) =
      [50; 100; 100]%Z /\
    last (progress (LogLoaderThread_run ".asc" None (Some 2%nat)
                      (reading sample_raw_log))) =
      Some 100%Z.
Proof.
  eexists. eexists. split; [vm_compute; reflexivity|].
  split; [lia|]. split; [vm_compute; reflexivity|].
  destruct (progress_steps ".asc" None 2 (reading sample_raw_log) _ _ eq_refl)
    as (_ & _ & Hlast & _); [lia|].
  apply Hlast; [discriminate | simpl; lia].
Defined.

Lemma finished_entries_well_formed_witness :
  PlotterThread_run sample_thread = PlotFinished sample_plot_data /\
  sample_plot_data <> ∅ /\
  values sample_entry <> [].
Proof.
  assert (Hrun : PlotterThread_run sample_thread = PlotFinished sample_plot_data)
    by (vm_compute; reflexivity).
  destruct (finished_entries_well_formed sample_thread sample_plot_data Hrun)
    as [Hne Hall].
  split; [exact Hrun|]. split; [exact Hne|].
  apply (Hall "Engine.RPM" sample_entry). vm_compute. reflexivity.
Defined.

Lemma normalized_entry_witness :
  normalize sample_thread = true /\
  PlotterThread_run sample_thread = PlotFinished sample_plot_data /\
  sample_plot_data !! "Engine.RPM" = Some sample_entry /\
  ((forall a b, In a (values sample_entry) -> In b (values sample_entry) -> (a == b)%Q) \/
   ((forall v, In v (values sample_entry) -> (0 <= v)%Q /\ (v <= 1)%Q) /\
    (exists v, In v (values sample_entry) /\ (v == 0)%Q) /\
    (exists v, In v (values sample_entry) /\ (v == 1)%Q))).
Proof.
  split; [reflexivity|]. split; [vm_compute; reflexivity|].
  split; [vm_compute; reflexivity|].
  apply (normalized_entry_constant_or_spans_unit sample_thread sample_plot_data
           "Engine.RPM" sample_entry); vm_compute; reflexivity.
Defined.

Lemma full_range_keeps_every_row_witness :
  time_range sample_full_thread = None /\
  exists pd,
    PlotterThread_run sample_full_thread = PlotFinished pd /\
    exists e,
      pd !! clean_signal "[PDU] Engine.RPM" = Some e /\
      timestamps e = List.map fst [(0, 5); (1, 7); (2, 9)]%Q /\
      values e = normalized (normalize sample_full_thread)
                            (List.map snd [(0, 5); (1, 7); (2, 9)]%Q).
Proof.
  split; [reflexivity|]. eexists. split; [vm_compute; reflexivity|].
  apply (full_range_keeps_every_row sample_full_thread _ eq_refl eq_refl
           "[PDU] Engine.RPM" [(0, 5); (1, 7); (2, 9)]%Q);
    [left; reflexivity | reflexivity | discriminate].
Defined.

Lemma preparation_error_by_window_witness :
  PlotterThread_run sample_empty_thread =
    PlotError (ValueError "No data available for selected signals") /\
  ((time_range sample_empty_thread = None /\
    ValueError "No data available for selected signals" =
    ValueError "No data available for selected signals") \/
   (is_Some (time_range sample_empty_thread) /\
    ValueError "No data available for selected signals" =
    ValueError "No valid data to plot for selected signals")).
Proof.
  split; [reflexivity|].
  apply (preparation_error_by_window sample_empty_thread). reflexivity.
Defined.

Lemma raw_entry_zips_back_witness :
  normalize sample_full_thread = false /\
  exists pd e,
    PlotterThread_run sample_full_thread = PlotFinished pd /\
    pd !! "Speed.KPH" = Some e /\
    exists rows s t,
      effective_window sample_full_thread = inr (s, t) /\
      pt_signals_data sample_full_thread !! "Speed.KPH" = Some rows /\
      combine (timestamps e) (values e) = filter_window s t rows.
Proof.
  split; [reflexivity|]. eexists. eexists.
  split; [vm_compute; reflexivity|]. split; [vm_compute; reflexivity|].
  apply (raw_entry_zips_back sample_full_thread _ "Speed.KPH" _ eq_refl eq_refl).
  reflexivity.
Defined.

Lemma custom_window_with_data_witness :
  (0 < 2)%Q /\
  exists thread,
    action (plot_signals sample_app (sample_widgets 0 2) false) = Started thread /\
    time_range thread = Some (0, 2)%Q /\
    List.filter is_fallback
      (plot_output (plot_signals sample_app (sample_widgets 0 2) false)) = [].
Proof.
  split; [reflexivity|].
  destruct (custom_window_with_data_is_kept sample_app (sample_widgets 0 2) false)
    as (thread & Hact & Htr & _ & _ & Hnone).
  - eexists. reflexivity.
  - reflexivity.
  - reflexivity.
  - reflexivity.
  - exists "[PDU] Engine.RPM", [(0, 5); (1, 7); (2, 9)]%Q.
    split; [left; reflexivity|]. split; [reflexivity | discriminate].
  - exists thread. auto.
Defined.

Lemma prefixed_selection_style_witness :
  exists thread pd e,
    action (plot_signals sample_app sample_widgets_full false) = Started thread /\
    PlotterThread_run thread = PlotFinished pd /\
    pd !! "Engine.RPM" = Some e /\
    ~ In "Engine.RPM" (signal_list_selected sample_widgets_full) /\
    style e = default_style.
Proof.
  eexists. eexists. eexists.
  split; [vm_compute; reflexivity|]. split; [vm_compute; reflexivity|].
  split; [vm_compute; reflexivity|].
  assert (Hnot : ~ In "Engine.RPM" (signal_list_selected sample_widgets_full)).
  { intros [H | [H | []]]; discriminate. }
  split; [exact Hnot|].
  refine (proj2 (prefixed_selection_gets_default_style sample_app sample_widgets_full
                   false _ _ "Engine.RPM" _ sample_store_keys_clean eq_refl eq_refl
                   eq_refl) Hnot).
Defined.

Lemma full_log_request_witness :
  time_range_combo sample_widgets_full <> "Custom" /\
  exists thread pd,
    action (plot_signals sample_app sample_widgets_full false) = Started thread /\
    time_range thread = None /\
    PlotterThread_run thread = PlotFinished pd.
Proof.
  split; [discriminate|].
  destruct (full_log_request_returns_all sample_app sample_widgets_full false)
    as (thread & Hact & Htr & Hfin & _).
  - eexists. reflexivity.
  - reflexivity.
  - discriminate.
  - apply sample_store_keys_clean.
  - discriminate.
  - destruct Hfin as (pd & Hrun & _).
    + exists "Speed.KPH", [(30, 1)%Q]. split; [right; left; reflexivity|].
      split; [reflexivity | discriminate].
    + exists thread, pd. auto.
Defined.

Lemma signal_item_cleans_witness :
  has_char "[" (schema_key (name climate_message) (sig_name fan_speed_signal)) = false /\
  signal_item climate_message fan_speed_signal = "[PDU] Climate.FanSpeed" /\
  clean_signal (signal_item climate_message fan_speed_signal) = "Climate.FanSpeed".
Proof.
  split; [reflexivity|]. split; [reflexivity|].
  apply (signal_item_cleans_to_key climate_message fan_speed_signal). reflexivity.
Defined.

Lemma raw_signal_list_witness :
  exists df sd,
    outcome (LogLoaderThread_run ".asc" None None (reading sample_raw_log)) =
      Finished df sd /\
    raw_signal_items df 256 = ["ID_0x100.Byte0"; "ID_0x100.Byte1"] /\
    exists rows, sd !! "ID_0x100.Byte1" = Some rows /\ rows <> [].
Proof.
  eexists. eexists. split; [vm_compute; reflexivity|].
  split; [reflexivity|].
  apply (proj1 (raw_signal_list_matches_store ".asc" None (reading sample_raw_log)
                  _ _ eq_refl)
           256%N "ID_0x100.Byte1").
  right. left. reflexivity.
Defined.

Lemma unknown_identifiers_witness :
  supported ".asc" /\
  outcome (LogLoaderThread_run ".asc" (Some sample_db) None
             (reading sample_unknown_log)) =
    Finished (List.map msg_data sample_unknown_log) ∅ /\
  output (LogLoaderThread_run ".asc" (Some sample_db) None
            (reading sample_unknown_log)) =
    [PNoDbcMessage 999; PNoDbcMessage 998; PProcessed 2 0; PWarnNoSignals].
Proof.
  assert (Hs : supported ".asc") by (left; reflexivity).
  split; [exact Hs|].
  apply (unknown_identifiers_give_no_series ".asc" sample_db None
           (reading sample_unknown_log) Hs eq_refl eq_refl).
  intros msg [<- | [<- | []]]; reflexivity.
Defined.
